(** * ksuidx: namespaced KSUIDs

    A shallow embedding of [ksuidx.go] (package [ksuidx]) together with the
    part of its two imports that the package calls:

    - [github.com/segmentio/ksuid]: the 20-byte identifier, its binary and
      base-62 codecs and its generator (module [ksuid]);
    - [encoding/json]: the decoder used by [ID.UnmarshalJSON] on a [string]
      target.  It is a parameter of the embedding (Section [JSON]); module
      [json] gives the decoder of the standard library for that target.

    Go values are embedded as follows: a [byte] is [Init.Byte.byte], a
    [[]byte] is a [list byte], a [string] is a [String.string] (a sequence
    of 8-bit characters, as in Go), a fixed array [[n]byte] is [array n],
    and a function returning [(T, error)] returns [T * option error], where
    [None] is Go's nil error. *)

From Stdlib Require Import ZArith List String Ascii Bool Lia.
From Stdlib Require Import Strings.Byte.
Import ListNotations.

Local Open Scope Z_scope.

(** ** Go builtins: bytes, integer conversions, arrays and slices *)

Module Go.

Definition bytes := list byte.

(** The value of a byte as an integer, [uint64(b)]. *)
Definition byte_val (b : byte) : Z := Z.of_N (Byte.to_N b).

(** The conversion [byte(z)]: truncation to the low 8 bits. *)
Definition uint8 (z : Z) : byte :=
  match Byte.of_N (Z.to_N (z mod 256)) with
  | Some b => b
  | None => x00
  end.

Definition uint32 (z : Z) : Z := z mod 2 ^ 32.
Definition uint64 (z : Z) : Z := z mod 2 ^ 64.

(** [[n]byte] *)
Fixpoint array (n : nat) : Type :=
  match n with
  | O => unit
  | S m => (byte * array m)%type
  end.

(** The zero value of [[n]byte]. *)
Fixpoint zero (n : nat) : array n :=
  match n with
  | O => tt
  | S m => (x00, zero m)
  end.

(** [a[:]] *)
Fixpoint slice {n : nat} : array n -> bytes :=
  match n with
  | O => fun _ => []
  | S m => fun a => fst a :: slice (snd a)
  end.

(** [copy(a[:], src)]: the first [min n (len src)] cells are overwritten. *)
Fixpoint copy {n : nat} : array n -> bytes -> array n :=
  match n with
  | O => fun a _ => a
  | S m => fun a src =>
      match src with
      | [] => a
      | x :: src' => (x, copy (snd a) src')
      end
  end.

(** [copy(a[off:], src)] *)
Fixpoint copy_at {n : nat} : array n -> nat -> bytes -> array n :=
  match n with
  | O => fun a _ _ => a
  | S m => fun a off src =>
      match off with
      | O => copy (n := S m) a src
      | S off' => (fst a, copy_at (snd a) off' src)
      end
  end.

(** [b[lo:hi]] for [lo <= hi <= len(b)] *)
Definition sub (b : bytes) (lo hi : nat) : bytes := firstn (hi - lo) (skipn lo b).

(** [bytes.Equal] *)
Fixpoint bytes_Equal (a b : bytes) : bool :=
  match a, b with
  | [], [] => true
  | x :: a', y :: b' => Byte.eqb x y && bytes_Equal a' b'
  | _, _ => false
  end.

(** The result of a call that may panic. *)
Inductive outcome (A : Type) : Type :=
| Return (a : A)
| Panic.
Arguments Return {A} a.
Arguments Panic {A}.

(** The value of a package-level variable whose initialiser is [init];
    a panic there aborts the program before [main] starts. *)
Definition package_var {A : Type} (init : outcome A) (dflt : A) : A :=
  match init with
  | Return a => a
  | Panic => dflt
  end.

End Go.
Import Go.

(** ** Error values

    The values of Go's [error] interface that the modelled calls produce.
    The nullary constructors are the package-level sentinels, compared by
    identity in Go. *)

Inductive error : Type :=
| io_EOF
| io_ErrUnexpectedEOF
| io_ErrShortBuffer
| ksuid_errSize            (* Valid KSUIDs are 20 bytes *)
| ksuid_errStrSize         (* Valid encoded KSUIDs are 27 characters *)
| ksuid_errStrValue        (* Valid encoded KSUIDs are bounded by ... *)
| ksuid_errShortBuffer     (* the output buffer is too small ... *)
| json_SyntaxError         (* an error of type *json.SyntaxError *)
| json_UnmarshalTypeError  (* an error of type *json.UnmarshalTypeError *)
| errNamespaceSize         (* valid namespaces are 3 bytes *)
| errStringSize.           (* valid encoded strings are 30 bytes *)

(** [time.Time]: an instant, held as the seconds since the Unix epoch and
    the nanoseconds within that second.  The location and the monotonic
    clock reading of a Go [Time] are left out: no function of the package
    observes them. *)
Module time.

Record Time : Type := mkTime { sec : Z; nsec : Z }.

(** The method [Time.Unix]: the seconds since the Unix epoch. *)
Definition Unix (t : Time) : Z := sec t.

(** The method [Time.Nanosecond]: the nanoseconds within the second. *)
Definition Nanosecond (t : Time) : Z := nsec t.

(** The function [time.Unix(sec, nsec)]: nanoseconds outside
    [0, 999999999] are carried into the seconds. *)
Definition FromUnix (s n : Z) : Time :=
  {| sec := s + n / 1000000000; nsec := n mod 1000000000 |}.

End time.

(** The process-wide sources that minting consumes: the clock read by
    [time.Now], the entropy still to be delivered by [ksuid]'s reader, and
    [ksuid]'s shared read buffer. *)
Record World : Type := mkWorld {
  now : time.Time;
  rander : bytes;
  randBuffer : array 16
}.

(** ** Package [github.com/segmentio/ksuid]

    The functions of the imported package that [ksuidx] calls, with the
    base-62 codec behind them. *)

Module ksuid.

Definition epochStamp : Z := 1400000000.
Definition timestampLengthInBytes : nat := 4.
Definition payloadLengthInBytes : nat := 16.
Definition byteLength : nat := timestampLengthInBytes + payloadLengthInBytes.
Definition stringEncodedLength : nat := 27.

(** [type KSUID [byteLength]byte]:
    bytes 0-3 are a big-endian uint32 timestamp, bytes 4-19 the payload. *)
Definition KSUID : Type := array byteLength.

(** [var Nil KSUID] *)
Definition Nil : KSUID := zero byteLength.

(** *** base62.go *)

Definition base62Characters : bytes :=
  list_byte_of_string "0123456789ABCDEFGHIJKLMNOPQRSTUVWXYZabcdefghijklmnopqrstuvwxyz".
Definition zeroString : bytes :=
  list_byte_of_string "000000000000000000000000000".
Definition offsetUppercase : Z := 10.
Definition offsetLowercase : Z := 36.

(** [base62Value]: no validation, a byte outside [0-9A-Za-z] falls in the
    default case and wraps around. *)
Definition base62Value (digit : byte) : byte :=
  let d := byte_val digit in
  if (byte_val "0"%byte <=? d) && (d <=? byte_val "9"%byte) then
    uint8 (d - byte_val "0"%byte)
  else if (byte_val "A"%byte <=? d) && (d <=? byte_val "Z"%byte) then
    uint8 (offsetUppercase + (d - byte_val "A"%byte))
  else
    uint8 (offsetLowercase + (d - byte_val "a"%byte)).

(** [binary.BigEndian.Uint32] on a 4-byte slice *)
Definition Uint32 (b : bytes) : Z :=
  Z.lor (byte_val (nth 3 b x00))
    (Z.lor (Z.shiftl (byte_val (nth 2 b x00)) 8)
       (Z.lor (Z.shiftl (byte_val (nth 1 b x00)) 16)
              (Z.shiftl (byte_val (nth 0 b x00)) 24))).

(** The bytes written by [binary.BigEndian.PutUint32] *)
Definition PutUint32 (v : Z) : bytes :=
  [uint8 (Z.shiftr v 24); uint8 (Z.shiftr v 16); uint8 (Z.shiftr v 8); uint8 v].

Section LongDivision.

(** One pass of the inner loop shared by the encoder and the decoder:
    the number whose big-endian digits in base [srcBase] are [bp] is
    divided by [dstBase]; leading zero digits of the quotient are not
    stored.  [conv] is the conversion applied to a stored digit
    ([uint32] or [byte]).  In Go the quotient is written into the array
    that [bp] may alias, at an index never above the one being read, so
    the aliasing is not observable. *)
Variables (srcBase dstBase : Z) (conv : Z -> Z).

Fixpoint divide (bp quotient : list Z) (remainder : Z) : list Z * Z :=
  match bp with
  | [] => (quotient, remainder)
  | c :: bp' =>
      let value := uint64 (uint64 c + uint64 (uint64 remainder * srcBase)) in
      let digit := value / dstBase in
      let remainder := value mod dstBase in
      let quotient :=
        if negb (List.length quotient =? 0)%nat || negb (digit =? 0)
        then quotient ++ [conv digit] else quotient in
      divide bp' quotient remainder
  end.

End LongDivision.

(** The outer loop of [fastEncodeBase62]: [n] is the index below which
    [dst] is still unwritten and [tail] is [dst[n:]].  Writing at index
    [-1] is a run-time panic, [None]. *)
Fixpoint encodeLoop (n : nat) (bp : list Z) (tail : bytes) : option bytes :=
  match bp with
  | [] => Some (firstn n zeroString ++ tail)
  | _ :: _ =>
      match n with
      | O => None
      | S n' =>
          let '(quotient, remainder) := divide 4294967296 62 uint32 bp [] 0 in
          encodeLoop n' quotient
            (nth (Z.to_nat remainder) base62Characters x00 :: tail)
      end
  end.

(** [fastEncodeBase62(dst, src)] for a 20-byte [src] and a 27-byte [dst]:
    the contents of [dst] afterwards. *)
Definition fastEncodeBase62 (src : array 20) : option bytes :=
  let src := slice src in
  let parts := [Uint32 (sub src 0 4); Uint32 (sub src 4 8); Uint32 (sub src 8 12);
                Uint32 (sub src 12 16); Uint32 (sub src 16 20)] in
  encodeLoop 27 parts [].

(** [fastAppendEncodeBase62] *)
Definition fastAppendEncodeBase62 (dst : bytes) (src : array 20) : option bytes :=
  option_map (app dst) (fastEncodeBase62 src).

(** The outer loop of [fastDecodeBase62]: [dst] is the buffer on entry,
    [n] the index below which it is still unwritten, [tail] the bytes
    already written at [dst[n:]]. *)
Fixpoint decodeLoop (dst : bytes) (n : nat) (bp : list Z) (tail : bytes)
  : bytes * option error :=
  match bp with
  | [] => (firstn n (slice (zero 20)) ++ tail, None)
  | _ :: _ =>
      match n with
      | S (S (S (S n'))) =>
          let '(quotient, remainder) := divide 62 4294967296 (fun d => d mod 256) bp [] 0 in
          decodeLoop dst n' quotient (PutUint32 remainder ++ tail)
      | _ => (firstn n dst ++ tail, Some ksuid_errShortBuffer)
      end
  end.

(** [fastDecodeBase62(dst, src)] for a 27-byte [src]: the contents of
    [dst] afterwards and the error. *)
Definition fastDecodeBase62 (dst : bytes) (src : array 27) : bytes * option error :=
  let parts := map (fun c => byte_val (base62Value c)) (slice src) in
  decodeLoop dst (List.length dst) parts [].

(** *** ksuid.go *)

(** [KSUID.Append]: appends the string representation of [i] to [b].
    The encoder never panics on a 20-byte source (lemma
    [fastEncodeBase62_total]), so the second branch is dead. *)
Definition Append (i : KSUID) (b : bytes) : bytes :=
  match fastAppendEncodeBase62 b i with
  | Some b' => b'
  | None => b
  end.

(** [KSUID.String] *)
Definition String (i : KSUID) : string := string_of_list_byte (Append i []).

(** [KSUID.Bytes] *)
Definition Bytes (i : KSUID) : bytes := slice i.

(** [KSUID.IsNil] *)
Definition IsNil (i : KSUID) : bool := bytes_Equal (slice i) (slice Nil).

(** [KSUID.Timestamp] and [KSUID.Time] *)
Definition Timestamp (i : KSUID) : Z := Uint32 (sub (slice i) 0 timestampLengthInBytes).
Definition Time (i : KSUID) : time.Time := time.FromUnix (Timestamp i + epochStamp) 0.

(** [FromBytes] *)
Definition FromBytes (b : bytes) : KSUID * option error :=
  if negb (List.length b =? byteLength)%nat then (Nil, Some ksuid_errSize)
  else (copy (zero byteLength) b, None).

(** [Parse] *)
Definition Parse (s : string) : KSUID * option error :=
  if negb (String.length s =? stringEncodedLength)%nat then (Nil, Some ksuid_errStrSize)
  else
    let src := copy (zero stringEncodedLength) (list_byte_of_string s) in
    let dst := zero byteLength in
    match fastDecodeBase62 (slice dst) src with
    | (_, Some _) => (Nil, Some ksuid_errStrValue)
    | (dst, None) => FromBytes dst
    end.

(** [timeToCorrectedUTCTimestamp] *)
Definition timeToCorrectedUTCTimestamp (t : time.Time) : Z :=
  uint32 (time.Unix t - epochStamp).

(** [io.ReadAtLeast(rander, buf[:], min)] on a reader that delivers the
    bytes [r] and then reports end of file: the bytes read, the error, the
    reader and the buffer afterwards. *)
Definition ReadAtLeast {n : nat} (r : bytes) (buf : array n) (min : nat)
  : option error * bytes * array n :=
  if (n <? min)%nat then (Some io_ErrShortBuffer, r, buf)
  else
    let got := firstn n r in
    let err :=
      if (min <=? List.length got)%nat then None
      else if (List.length got =? 0)%nat then Some io_EOF
      else Some io_ErrUnexpectedEOF in
    (err, skipn n r, copy buf got).

(** [NewRandomWithTime] *)
Definition NewRandomWithTime (t : time.Time) (w : World) : KSUID * option error * World :=
  let '(err, r', buf') := ReadAtLeast (rander w) (randBuffer w) payloadLengthInBytes in
  let w' := mkWorld (now w) r' buf' in
  let ksuid := copy_at (zero byteLength) timestampLengthInBytes (slice buf') in
  match err with
  | Some e => (Nil, Some e, w')
  | None =>
      let ts := timeToCorrectedUTCTimestamp t in
      (copy_at ksuid 0 (PutUint32 ts), None, w')
  end.

End ksuid.

(** ** Package [encoding/json]

    [ID.UnmarshalJSON] calls [json.Unmarshal(b, &s)] with [s] a [string]
    variable.  A decoder for that call maps the input text and the value of
    [s] before the call to the value of [s] after it and the error.  The
    module follows the standard library on that call: the scanner that
    validates the text, the dispatch on the kind of the top-level value and
    the unquoting of a string literal, with the parts of [unicode/utf8] and
    [unicode/utf16] that unquoting uses. *)

Module json.

Definition StringDecoder : Type := bytes -> string -> string * option error.

Definition eqc (c x : byte) : bool := Byte.eqb c x.

Definition between (lo c hi : byte) : bool :=
  (byte_val lo <=? byte_val c) && (byte_val c <=? byte_val hi).

(** *** unicode/utf8 and unicode/utf16 *)

Definition RuneError : Z := 65533.
Definition RuneSelf : Z := 128.
Definition MaxRune : Z := 1114111.

Definition continuation (lo hi : Z) (b : byte) : bool :=
  (lo <=? byte_val b) && (byte_val b <=? hi).

(** [utf8.DecodeRune]: the rune and its width; an invalid or truncated
    encoding gives [(RuneError, 1)], the empty input [(RuneError, 0)]. *)
Definition DecodeRune (p : bytes) : Z * nat :=
  match p with
  | [] => (RuneError, 0%nat)
  | p0 :: p' =>
      let x0 := byte_val p0 in
      if x0 <? 128 then (x0, 1%nat)
      else
        (* the width and the range accepted for the second byte *)
        let '(sz, lo, hi) :=
          if (194 <=? x0) && (x0 <=? 223) then (2%nat, 128, 191)
          else if x0 =? 224 then (3%nat, 160, 191)
          else if (225 <=? x0) && (x0 <=? 236) then (3%nat, 128, 191)
          else if x0 =? 237 then (3%nat, 128, 159)
          else if (238 <=? x0) && (x0 <=? 239) then (3%nat, 128, 191)
          else if x0 =? 240 then (4%nat, 144, 191)
          else if (241 <=? x0) && (x0 <=? 243) then (4%nat, 128, 191)
          else if x0 =? 244 then (4%nat, 128, 143)
          else (1%nat, 0, 0) in
        if (sz =? 1)%nat then (RuneError, 1%nat)
        else if (List.length p <? sz)%nat then (RuneError, 1%nat)
        else
          let b1 := nth 1 p x00 in
          let b2 := nth 2 p x00 in
          let b3 := nth 3 p x00 in
          let low6 (b : byte) := Z.land (byte_val b) 63 in
          if negb (continuation lo hi b1) then (RuneError, 1%nat)
          else if (sz <=? 2)%nat then
            (Z.lor (Z.shiftl (Z.land x0 31) 6) (low6 b1), 2%nat)
          else if negb (continuation 128 191 b2) then (RuneError, 1%nat)
          else if (sz <=? 3)%nat then
            (Z.lor (Z.shiftl (Z.land x0 15) 12)
               (Z.lor (Z.shiftl (low6 b1) 6) (low6 b2)), 3%nat)
          else if negb (continuation 128 191 b3) then (RuneError, 1%nat)
          else
            (Z.lor (Z.shiftl (Z.land x0 7) 18)
               (Z.lor (Z.shiftl (low6 b1) 12)
                  (Z.lor (Z.shiftl (low6 b2) 6) (low6 b3))), 4%nat)
  end.

(** [utf16.IsSurrogate] *)
Definition IsSurrogate (r : Z) : bool := (55296 <=? r) && (r <? 57344).

(** [utf8.EncodeRune]: the bytes written for the rune [r]. *)
Definition EncodeRune (r : Z) : bytes :=
  let three (r : Z) :=
    [uint8 (Z.lor 224 (Z.shiftr r 12));
     uint8 (Z.lor 128 (Z.land (Z.shiftr r 6) 63));
     uint8 (Z.lor 128 (Z.land r 63))] in
  if (0 <=? r) && (r <=? 127) then [uint8 r]
  else if (0 <=? r) && (r <=? 2047) then
    [uint8 (Z.lor 192 (Z.shiftr r 6)); uint8 (Z.lor 128 (Z.land r 63))]
  else if (r <? 0) || (MaxRune <? r) || IsSurrogate r then three RuneError
  else if r <=? 65535 then three r
  else
    [uint8 (Z.lor 240 (Z.shiftr r 18));
     uint8 (Z.lor 128 (Z.land (Z.shiftr r 12) 63));
     uint8 (Z.lor 128 (Z.land (Z.shiftr r 6) 63));
     uint8 (Z.lor 128 (Z.land r 63))].

(** [utf16.DecodeRune]: the rune of a surrogate pair, [RuneError] when the
    two halves are not a valid pair. *)
Definition DecodeSurrogates (r1 r2 : Z) : Z :=
  if (55296 <=? r1) && (r1 <? 56320) && (56320 <=? r2) && (r2 <? 57344)
  then Z.lor (Z.shiftl (r1 - 55296) 10) (r2 - 56320) + 65536
  else RuneError.

(** *** scanner.go *)

Definition isSpace (c : byte) : bool :=
  (byte_val c <=? byte_val " "%byte)
  && (eqc c " "%byte || eqc c x09 || eqc c x0d || eqc c x0a).

Inductive opcode : Type :=
| scanContinue | scanBeginLiteral | scanBeginObject | scanObjectKey
| scanObjectValue | scanEndObject | scanBeginArray | scanArrayValue
| scanEndArray | scanSkipSpace | scanEnd | scanError.

Inductive parseState : Type := parseObjectKey | parseObjectValue | parseArrayValue.

(** The state functions of the scanner, by name. *)
Inductive stepFn : Type :=
| fn_stateBeginValueOrEmpty | fn_stateBeginValue | fn_stateBeginStringOrEmpty
| fn_stateBeginString | fn_stateEndValue | fn_stateEndTop
| fn_stateInString | fn_stateInStringEsc | fn_stateInStringEscU
| fn_stateInStringEscU1 | fn_stateInStringEscU12 | fn_stateInStringEscU123
| fn_stateNeg | fn_state1 | fn_state0 | fn_stateDot | fn_stateDot0
| fn_stateE | fn_stateESign | fn_stateE0
| fn_stateT | fn_stateTr | fn_stateTru
| fn_stateF | fn_stateFa | fn_stateFal | fn_stateFals
| fn_stateN | fn_stateNu | fn_stateNul
| fn_stateError.

(** [type scanner]: the next state function, the stack of what is being
    parsed (innermost first) and whether the top-level value has ended.
    The field [err] is set exactly when [step] is [stateError]. *)
Record scanner : Type := mkScanner {
  step : stepFn;
  parseStates : list parseState;
  endTop : bool
}.

Definition maxNestingDepth : Z := 10000.

Definition withStep (s : scanner) (f : stepFn) : scanner :=
  {| step := f; parseStates := parseStates s; endTop := endTop s |}.

(** [scanner.reset] *)
Definition reset : scanner :=
  {| step := fn_stateBeginValue; parseStates := []; endTop := false |}.

(** [scanner.error] *)
Definition error_ (s : scanner) : scanner * opcode := (withStep s fn_stateError, scanError).

(** [scanner.pushParseState], after [s.step] was set to [f] *)
Definition pushParseState (s : scanner) (f : stepFn) (newParseState : parseState)
    (successState : opcode) : scanner * opcode :=
  let s := {| step := f; parseStates := newParseState :: parseStates s;
              endTop := endTop s |} in
  if Z.of_nat (List.length (parseStates s)) <=? maxNestingDepth then (s, successState)
  else error_ s.

(** [scanner.popParseState] *)
Definition popParseState (s : scanner) : scanner :=
  match tl (parseStates s) with
  | [] => {| step := fn_stateEndTop; parseStates := []; endTop := true |}
  | ps => {| step := fn_stateEndValue; parseStates := ps; endTop := endTop s |}
  end.

Definition stateEndTop (s : scanner) (c : byte) : scanner * opcode :=
  if negb (isSpace c) then (fst (error_ s), scanEnd) else (s, scanEnd).

Definition stateEndValue (s : scanner) (c : byte) : scanner * opcode :=
  match parseStates s with
  | [] =>
      stateEndTop {| step := fn_stateEndTop; parseStates := []; endTop := true |} c
  | ps :: rest =>
      if isSpace c then (withStep s fn_stateEndValue, scanSkipSpace)
      else
        let top (p : parseState) (f : stepFn) : scanner :=
          {| step := f; parseStates := p :: rest; endTop := endTop s |} in
        match ps with
        | parseObjectKey =>
            if eqc c ":"%byte then (top parseObjectValue fn_stateBeginValue, scanObjectKey)
            else error_ s
        | parseObjectValue =>
            if eqc c ","%byte then (top parseObjectKey fn_stateBeginString, scanObjectValue)
            else if eqc c "}"%byte then (popParseState s, scanEndObject)
            else error_ s
        | parseArrayValue =>
            if eqc c ","%byte then (withStep s fn_stateBeginValue, scanArrayValue)
            else if eqc c "]"%byte then (popParseState s, scanEndArray)
            else error_ s
        end
  end.

Definition stateBeginValue (s : scanner) (c : byte) : scanner * opcode :=
  if isSpace c then (s, scanSkipSpace)
  else if eqc c "{"%byte then
    pushParseState s fn_stateBeginStringOrEmpty parseObjectKey scanBeginObject
  else if eqc c "["%byte then
    pushParseState s fn_stateBeginValueOrEmpty parseArrayValue scanBeginArray
  else if eqc c x22 then (withStep s fn_stateInString, scanBeginLiteral)
  else if eqc c "-"%byte then (withStep s fn_stateNeg, scanBeginLiteral)
  else if eqc c "0"%byte then (withStep s fn_state0, scanBeginLiteral)
  else if eqc c "t"%byte then (withStep s fn_stateT, scanBeginLiteral)
  else if eqc c "f"%byte then (withStep s fn_stateF, scanBeginLiteral)
  else if eqc c "n"%byte then (withStep s fn_stateN, scanBeginLiteral)
  else if between "1"%byte c "9"%byte then (withStep s fn_state1, scanBeginLiteral)
  else error_ s.

Definition stateBeginValueOrEmpty (s : scanner) (c : byte) : scanner * opcode :=
  if isSpace c then (s, scanSkipSpace)
  else if eqc c "]"%byte then stateEndValue s c
  else stateBeginValue s c.

Definition stateBeginString (s : scanner) (c : byte) : scanner * opcode :=
  if isSpace c then (s, scanSkipSpace)
  else if eqc c x22 then (withStep s fn_stateInString, scanBeginLiteral)
  else error_ s.

Definition stateBeginStringOrEmpty (s : scanner) (c : byte) : scanner * opcode :=
  if isSpace c then (s, scanSkipSpace)
  else if eqc c "}"%byte then
    stateEndValue {| step := step s; parseStates := parseObjectValue :: tl (parseStates s);
                     endTop := endTop s |} c
  else stateBeginString s c.

Definition isHex (c : byte) : bool :=
  between "0"%byte c "9"%byte || between "a"%byte c "f"%byte || between "A"%byte c "F"%byte.

Definition isDigit (c : byte) : bool := between "0"%byte c "9"%byte.

Definition state0 (s : scanner) (c : byte) : scanner * opcode :=
  if eqc c "."%byte then (withStep s fn_stateDot, scanContinue)
  else if eqc c "e"%byte || eqc c "E"%byte then (withStep s fn_stateE, scanContinue)
  else stateEndValue s c.

Definition stateESign (s : scanner) (c : byte) : scanner * opcode :=
  if isDigit c then (withStep s fn_stateE0, scanContinue) else error_ s.

(** A state that expects the one character [x] and moves to [f]. *)
Definition expect (s : scanner) (c x : byte) (f : stepFn) : scanner * opcode :=
  if eqc c x then (withStep s f, scanContinue) else error_ s.

(** [s.step(s, c)] *)
Definition next (s : scanner) (c : byte) : scanner * opcode :=
  match step s with
  | fn_stateBeginValueOrEmpty => stateBeginValueOrEmpty s c
  | fn_stateBeginValue => stateBeginValue s c
  | fn_stateBeginStringOrEmpty => stateBeginStringOrEmpty s c
  | fn_stateBeginString => stateBeginString s c
  | fn_stateEndValue => stateEndValue s c
  | fn_stateEndTop => stateEndTop s c
  | fn_stateInString =>
      if eqc c x22 then (withStep s fn_stateEndValue, scanContinue)
      else if eqc c x5c then (withStep s fn_stateInStringEsc, scanContinue)
      else if byte_val c <? 32 then error_ s
      else (s, scanContinue)
  | fn_stateInStringEsc =>
      if eqc c "b"%byte || eqc c "f"%byte || eqc c "n"%byte || eqc c "r"%byte || eqc c "t"%byte
         || eqc c x5c || eqc c "/"%byte || eqc c x22
      then (withStep s fn_stateInString, scanContinue)
      else if eqc c "u"%byte then (withStep s fn_stateInStringEscU, scanContinue)
      else error_ s
  | fn_stateInStringEscU =>
      if isHex c then (withStep s fn_stateInStringEscU1, scanContinue) else error_ s
  | fn_stateInStringEscU1 =>
      if isHex c then (withStep s fn_stateInStringEscU12, scanContinue) else error_ s
  | fn_stateInStringEscU12 =>
      if isHex c then (withStep s fn_stateInStringEscU123, scanContinue) else error_ s
  | fn_stateInStringEscU123 =>
      if isHex c then (withStep s fn_stateInString, scanContinue) else error_ s
  | fn_stateNeg =>
      if eqc c "0"%byte then (withStep s fn_state0, scanContinue)
      else if between "1"%byte c "9"%byte then (withStep s fn_state1, scanContinue)
      else error_ s
  | fn_state1 =>
      if isDigit c then (withStep s fn_state1, scanContinue) else state0 s c
  | fn_state0 => state0 s c
  | fn_stateDot =>
      if isDigit c then (withStep s fn_stateDot0, scanContinue) else error_ s
  | fn_stateDot0 =>
      if isDigit c then (s, scanContinue)
      else if eqc c "e"%byte || eqc c "E"%byte then (withStep s fn_stateE, scanContinue)
      else stateEndValue s c
  | fn_stateE =>
      if eqc c "+"%byte || eqc c "-"%byte then (withStep s fn_stateESign, scanContinue)
      else stateESign s c
  | fn_stateESign => stateESign s c
  | fn_stateE0 =>
      if isDigit c then (s, scanContinue) else stateEndValue s c
  | fn_stateT => expect s c "r"%byte fn_stateTr
  | fn_stateTr => expect s c "u"%byte fn_stateTru
  | fn_stateTru => expect s c "e"%byte fn_stateEndValue
  | fn_stateF => expect s c "a"%byte fn_stateFa
  | fn_stateFa => expect s c "l"%byte fn_stateFal
  | fn_stateFal => expect s c "s"%byte fn_stateFals
  | fn_stateFals => expect s c "e"%byte fn_stateEndValue
  | fn_stateN => expect s c "u"%byte fn_stateNu
  | fn_stateNu => expect s c "l"%byte fn_stateNul
  | fn_stateNul => expect s c "l"%byte fn_stateEndValue
  | fn_stateError => (s, scanError)
  end.

(** [scanner.eof] *)
Definition eof (s : scanner) : opcode :=
  match step s with
  | fn_stateError => scanError
  | _ =>
      if endTop s then scanEnd
      else
        let s' := fst (next s " "%byte) in
        if endTop s' then scanEnd else scanError
  end.

(** The loop of [checkValid]: [None] when a step reports [scanError]. *)
Fixpoint scan (s : scanner) (data : bytes) : option scanner :=
  match data with
  | [] => Some s
  | c :: data' =>
      match next s c with
      | (_, scanError) => None
      | (s', _) => scan s' data'
      end
  end.

(** [checkValid]: the syntax error of the text, if any. *)
Definition checkValid (data : bytes) : option error :=
  match scan reset data with
  | None => Some json_SyntaxError
  | Some s =>
      match eof s with
      | scanError => Some json_SyntaxError
      | _ => None
      end
  end.

(** *** decode.go *)

Fixpoint skipSpace (data : bytes) : bytes :=
  match data with
  | c :: data' => if isSpace c then skipSpace data' else data
  | [] => []
  end.

(** [rescanLiteral] on a string literal: [data] starts after the opening
    quote, the result runs up to the closing quote, which it includes. *)
Fixpoint rescanString (data : bytes) : bytes :=
  match data with
  | [] => []
  | c :: data' =>
      if eqc c x5c then
        match data' with
        | [] => [c]
        | e :: data'' => c :: e :: rescanString data''
        end
      else if eqc c x22 then [c]
      else c :: rescanString data'
  end.

(** The value of a hexadecimal digit, [-1] for another character. *)
Definition hexValue (c : byte) : Z :=
  if between "0"%byte c "9"%byte then byte_val c - byte_val "0"%byte
  else if between "a"%byte c "f"%byte then byte_val c - byte_val "a"%byte + 10
  else if between "A"%byte c "F"%byte then byte_val c - byte_val "A"%byte + 10
  else -1.

(** [getu4]: the rune of a leading [\uXXXX], [-1] when there is none. *)
Definition getu4 (s : bytes) : Z :=
  match s with
  | b0 :: b1 :: h0 :: h1 :: h2 :: h3 :: _ =>
      if negb (eqc b0 x5c) || negb (eqc b1 "u"%byte) then -1
      else
        let d0 := hexValue h0 in let d1 := hexValue h1 in
        let d2 := hexValue h2 in let d3 := hexValue h3 in
        if (d0 <? 0) || (d1 <? 0) || (d2 <? 0) || (d3 <? 0) then -1
        else ((d0 * 16 + d1) * 16 + d2) * 16 + d3
  | _ => -1
  end.

(** The loop of [unquoteBytes] over the inside of the literal; every turn
    consumes at least one byte of [s], so [fuel] is its length.  [None] is
    the result [ok = false]. *)
Fixpoint unquoteLoop (fuel : nat) (s : bytes) : option bytes :=
  match s, fuel with
  | [], _ => Some []
  | _ :: _, O => None
  | c :: rest, S fuel' =>
      if eqc c x5c then
        match rest with
        | [] => None
        | e :: rest' =>
            let one (b : byte) := option_map (cons b) (unquoteLoop fuel' rest') in
            if eqc e x22 || eqc e x5c || eqc e "/"%byte || eqc e "'"%byte then one e
            else if eqc e "b"%byte then one x08
            else if eqc e "f"%byte then one x0c
            else if eqc e "n"%byte then one x0a
            else if eqc e "r"%byte then one x0d
            else if eqc e "t"%byte then one x09
            else if eqc e "u"%byte then
              let rr := getu4 s in
              if rr <? 0 then None
              else
                let s1 := skipn 6 s in
                if IsSurrogate rr then
                  let rr1 := getu4 s1 in
                  let dec := DecodeSurrogates rr rr1 in
                  if negb (dec =? RuneError) then
                    option_map (app (EncodeRune dec)) (unquoteLoop fuel' (skipn 6 s1))
                  else
                    option_map (app (EncodeRune RuneError)) (unquoteLoop fuel' s1)
                else option_map (app (EncodeRune rr)) (unquoteLoop fuel' s1)
            else None
        end
      else if eqc c x22 || (byte_val c <? 32) then None
      else if byte_val c <? RuneSelf then option_map (cons c) (unquoteLoop fuel' rest)
      else
        let '(rr, size) := DecodeRune s in
        option_map (app (EncodeRune rr)) (unquoteLoop fuel' (skipn size s))
  end.

(** [unquoteBytes]: the text of a quoted literal.  The library first scans
    for a character that needs work and returns the inside as it is when
    there is none; the loop gives the same bytes in that case. *)
Definition unquoteBytes (s : bytes) : option bytes :=
  match s with
  | q :: s' =>
      if negb (eqc q x22) then None
      else
        match rev s' with
        | q' :: inside => if eqc q' x22
                          then unquoteLoop (List.length inside) (rev inside)
                          else None
        | [] => None
        end
  | [] => None
  end.

(** [json.Unmarshal(data, &s)] for [s] of type [string]: a text that is not
    valid JSON is a syntax error; [null] leaves [s] as it is; a string
    literal is unquoted into [s]; any other value is a type error and
    leaves [s] as it is.  A literal that does not unquote cannot pass
    [checkValid]; the library panics there, the model reports the syntax
    error. *)
Definition Unmarshal : StringDecoder := fun data s =>
  match checkValid data with
  | Some err => (s, Some err)
  | None =>
      match skipSpace data with
      | c :: data' =>
          if eqc c x22 then
            match unquoteBytes (c :: rescanString data') with
            | Some t => (string_of_list_byte t, None)
            | None => (s, Some json_SyntaxError)
            end
          else if eqc c "n"%byte then (s, None)
          else (s, Some json_UnmarshalTypeError)
      | [] => (s, Some json_SyntaxError)
      end
  end.

End json.

(** ** Package [ksuidx] *)

Definition byteLength : nat := 23.          (* length of ksuidx id *)
Definition baseLength : nat := 20.          (* length of segment's ksuid *)
Definition nsLength : nat := byteLength - baseLength.
Definition stringEncodedLength : nat := 30.

(** [type Namespace [nsLength]byte] *)
Definition Namespace : Type := array nsLength.

(** [NewNamespace] *)
Definition NewNamespace (v : string) : Namespace * option error :=
  let b := list_byte_of_string v in
  if negb (List.length b =? nsLength)%nat then (zero nsLength, Some errNamespaceSize)
  else
    let ns := copy (zero nsLength) b in
    (ns, None).

(** [MustNamespace] *)
Definition MustNamespace (v : string) : outcome Namespace :=
  match NewNamespace v with
  | (_, Some err) => Panic
  | (ns, None) => Return ns
  end.

(** A value of type [interface{}], by dynamic type: the four types that
    [Namespace.Equal] inspects, and samples of the others (the nil
    interface, an [int], a value of some other defined type). *)
Inductive any : Type :=
| any_nil
| any_Namespace (v : Namespace)
| any_array3 (v : array 3)
| any_bytes (v : bytes)
| any_string (v : string)
| any_int (v : Z)
| any_defined (type_name : string) (underlying : any).

Module Namespace.

(** [Namespace.Append] *)
Definition Append (n : Namespace) (b : bytes) : bytes := b ++ slice n.

(** [Namespace.raw] *)
Definition raw (n : Namespace) : bytes :=
  let b : array 3 := n in
  slice b.

(** [Namespace.Bytes] *)
Definition Bytes (n : Namespace) : bytes :=
  let b := [] in
  Append n b.

(** [Namespace.Equal] *)
Definition Equal (n : Namespace) (that : any) : bool :=
  match that with
  | any_Namespace v => bytes_Equal (raw n) (raw v)
  | any_array3 v => bytes_Equal (raw n) (slice v)
  | any_bytes v => bytes_Equal (raw n) v
  | any_string v => bytes_Equal (raw n) (list_byte_of_string v)
  | _ => false
  end.

(** [Namespace.String] *)
Definition String (n : Namespace) : string :=
  let b := [] in
  string_of_list_byte (Append n b).

End Namespace.

(** [Unknown]: the namespace applied when converting from raw KSUID values *)
Definition Unknown : Namespace :=
  package_var (MustNamespace "unk") (zero nsLength).

(** [type ID struct { ns Namespace; ksuid ksuid.KSUID }] *)
Record ID : Type := mkID {
  ns : Namespace;
  ksuid : ksuid.KSUID
}.

(** [Nil] *)
Definition Nil : ID := {| ns := Unknown; ksuid := ksuid.Nil |}.

(** [ID{}], the zero value *)
Definition zeroID : ID := {| ns := zero nsLength; ksuid := zero ksuid.byteLength |}.

(** [FromBytes] *)
Definition FromBytes (b : bytes) : ID * option error :=
  let id := zeroID in
  if (List.length b =? byteLength)%nat then
    match ksuid.FromBytes (skipn nsLength b) with
    | (_, Some err) => (zeroID, Some err)
    | (v, None) =>
        ({| ns := copy (ns id) (sub b 0 nsLength); ksuid := v |}, None)
    end
  else (* when b is a ksuid *)
    match ksuid.FromBytes b with
    | (_, Some err) => (zeroID, Some err)
    | (v, None) => ({| ns := Unknown; ksuid := v |}, None)
    end.

(** [Parse] *)
Definition Parse (s : string) : ID * option error :=
  let length := String.length s in
  if (length =? stringEncodedLength - nsLength)%nat then
    match ksuid.Parse s with
    | (_, Some err) => (zeroID, Some err)
    | (v, None) => ({| ns := Unknown; ksuid := v |}, None)
    end
  else if negb (length =? stringEncodedLength)%nat then
    (zeroID, Some errStringSize)
  else
    match NewNamespace (substring 0 nsLength s) with
    | (_, Some err) => (zeroID, Some err)
    | (ns, None) =>
        match ksuid.Parse (substring nsLength (length - nsLength) s) with
        | (_, Some err) => (zeroID, Some err)
        | (v, None) => ({| ns := ns; ksuid := v |}, None)
        end
    end.

(** [NewRandomWithTime] *)
Definition NewRandomWithTime (ns : Namespace) (t : time.Time) (w : World)
  : ID * option error * World :=
  match ksuid.NewRandomWithTime t w with
  | (_, Some err, w') => (zeroID, Some err, w')
  | (v, None, w') => ({| ns := ns; ksuid := v |}, None, w')
  end.

(** [NewRandom] *)
Definition NewRandom (ns : Namespace) (w : World) : ID * option error * World :=
  NewRandomWithTime ns (now w) w.

(** [New] *)
Definition New (ns : Namespace) (w : World) : outcome ID * World :=
  match NewRandom ns w with
  | (_, Some err, w') => (Panic, w')
  | (id, None, w') => (Return id, w')
  end.

Module ID.

(** [ID.Append]: appends the string representation of [i] to [b] *)
Definition Append (i : ID) (b : bytes) : bytes :=
  let b := b ++ slice (ns i) in
  ksuid.Append (ksuid i) b.

(** [ID.Bytes]: the 23-byte representation *)
Definition Bytes (i : ID) : bytes :=
  let b := [] in
  let b := Namespace.Append (ns i) b in
  let b := b ++ slice (ksuid i) in
  b.

(** [ID.Equal] *)
Definition Equal (i that : ID) : bool :=
  Namespace.Equal (ns i) (any_Namespace (ns that))
  && bytes_Equal (slice (ksuid i)) (slice (ksuid that)).

(** [ID.IsNil] *)
Definition IsNil (i : ID) : bool :=
  Namespace.Equal (ns i) (any_Namespace Unknown) && ksuid.IsNil (ksuid i).

(** [ID.MarshalJSON] *)
Definition MarshalJSON (i : ID) : bytes * option error :=
  let b := [] in
  let b := b ++ [x22] in
  let b := Append i b in
  let b := b ++ [x22] in
  (b, None).

(** [ID.KSUID] and [ID.Namespace] *)
Definition KSUID (i : ID) : ksuid.KSUID := ksuid i.
Definition Namespace (i : ID) : Namespace := ns i.

(** [ID.String] *)
Definition String (i : ID) : string :=
  let b := [] in
  string_of_list_byte (Append i b).

(** [ID.Time] *)
Definition Time (i : ID) : time.Time := ksuid.Time (ksuid i).

Section JSON.

(** [json.Unmarshal] at a [string] target. *)
Variable json_Unmarshal : json.StringDecoder.

(** [ID.UnmarshalJSON], on a pointer receiver: [i] is the value behind
    the receiver before the call, the result holds the value behind it
    afterwards. *)
Definition UnmarshalJSON (i : ID) (b : bytes) : ID * option error :=
  let s := EmptyString in
  match json_Unmarshal b s with
  | (_, Some err) => (i, Some err)
  | (s, None) =>
      if String.eqb s EmptyString then (Nil, None)
      else
        match Parse s with
        | (_, Some err) => (i, Some err)
        | (id, None) => (id, None)
        end
  end.

End JSON.

End ID.

(** ** Vocabulary of the proofs *)

(** The number denoted by the big-endian digits [l] in base [B]. *)
Definition val (B : Z) (l : list Z) : Z := fold_left (fun acc c => acc * B + c) l 0.

(** Every digit of [l] is a digit of base [B]. *)
Definition digits (B : Z) (l : list Z) : Prop := Forall (fun c => 0 <= c < B) l.

(** [l] has no leading zero. *)
Definition normalized (l : list Z) : Prop :=
  match l with
  | [] => True
  | c :: _ => c <> 0
  end.

(** The character that the encoder writes for the base-62 digit [d]. *)
Definition char62 (d : Z) : byte := nth (Z.to_nat d) ksuid.base62Characters x00.

(** The five big-endian 32-bit words of a KSUID. *)
Definition words (k : ksuid.KSUID) : list Z :=
  let src := slice k in
  [ksuid.Uint32 (sub src 0 4); ksuid.Uint32 (sub src 4 8); ksuid.Uint32 (sub src 8 12);
   ksuid.Uint32 (sub src 12 16); ksuid.Uint32 (sub src 16 20)].

(** [p] is a prefix of [s]: [strings.HasPrefix(s, p)]. *)
Definition HasPrefix (s p : string) : Prop := exists rest, s = (p ++ rest)%string.

(** A character of the base-62 alphabet, and a string made of such
    characters only. *)
Definition alphanumeric (c : byte) : bool := existsb (Byte.eqb c) ksuid.base62Characters.

Definition canonical (s : string) : Prop :=
  forallb alphanumeric (list_byte_of_string s) = true.

(** The number that a string denotes when its characters are read as
    base-62 digits through [base62Value]. *)
Definition base62_number (s : string) : Z :=
  val 62 (map (fun c => byte_val (ksuid.base62Value c)) (list_byte_of_string s)).

(** ** Sample values

    The values of the package's tests: the namespace [bla], a world whose
    entropy source still holds nineteen bytes, the identifier minted from
    them, the KSUID of the [ksuid] documentation in its two forms, and the
    JSON texts [null] and the empty string literal. *)

Definition sample_ns : Namespace := ("b", ("l", ("a", tt)))%byte.

Definition sample_time : time.Time := time.mkTime 1500000000 123456789.

Definition sample_world : World :=
  {| now := time.mkTime 1600000000 987654321;
     rander := list_byte_of_string "0123456789abcdefXYZ";
     randBuffer := zero 16 |}.

Definition sample_id : ID := fst (fst (NewRandomWithTime sample_ns sample_time sample_world)).

Definition sample_ksuid_bytes : bytes :=
  [x06; x69; xf7; xef; xb5; xa1; xcd; x34; xb5; xf9;
   x9d; x11; x54; xfb; x68; x53; x34; x5c; x97; x35].

Definition sample_ksuid_string : string := "0ujtsYcgvSTl8PAuAdqWYSMnLOv".

Definition json_null : bytes := list_byte_of_string "null".

Definition json_empty_string : bytes := [x22; x22].

(** ** Facts about the Go builtins *)

(** Closes a goal [(a, err) = (b, err') -> P] whose two sides are built by
    the same return statement. *)
Ltac returned :=
  let E := fresh "E" in
  intros E; inversion E; subst; try reflexivity; auto.

Section GoFacts.

Lemma byte_val_range (b : byte) : 0 <= byte_val b < 256.
Proof.
  unfold byte_val. pose proof (Byte.to_N_bounded b). lia.
Qed.

Lemma byte_val_uint8 (z : Z) : byte_val (uint8 z) = z mod 256.
Proof.
  unfold uint8, byte_val.
  pose proof (Z.mod_pos_bound z 256 eq_refl) as Hr.
  destruct (Byte.of_N (Z.to_N (z mod 256))) as [b|] eqn:E.
  - apply Byte.to_of_N in E. rewrite E. lia.
  - apply Byte.of_N_None_iff in E. lia.
Qed.

Lemma uint8_byte_val (b : byte) : uint8 (byte_val b) = b.
Proof.
  unfold uint8, byte_val. pose proof (Byte.to_N_bounded b) as Hb.
  rewrite Z.mod_small by lia. rewrite N2Z.id, Byte.of_to_N. reflexivity.
Qed.

Lemma byte_val_inj (a b : byte) : byte_val a = byte_val b -> a = b.
Proof.
  intros H. rewrite <- (uint8_byte_val a), <- (uint8_byte_val b), H. reflexivity.
Qed.

Lemma slice_length {n : nat} (a : array n) : List.length (slice a) = n.
Proof.
  induction n as [|n IH]; simpl; [reflexivity|]. now rewrite IH.
Qed.

Lemma slice_inj {n : nat} (a b : array n) : slice a = slice b -> a = b.
Proof.
  induction n as [|n IH]; simpl in *.
  - destruct a, b. reflexivity.
  - destruct a as [x a], b as [y b]. simpl. intros H. inversion H; subst.
    f_equal. now apply IH.
Qed.

Lemma slice_copy {n : nat} (a : array n) (l : bytes) :
  List.length l = n -> slice (copy a l) = l.
Proof.
  revert l. induction n as [|n IH]; intros l Hl; simpl.
  - destruct l; [reflexivity | discriminate].
  - destruct l as [|x l]; [discriminate|]. simpl. f_equal. apply IH.
    simpl in Hl. lia.
Qed.

Lemma copy_slice {n : nat} (a b : array n) : copy a (slice b) = b.
Proof.
  apply slice_inj. apply slice_copy. apply slice_length.
Qed.

Lemma bytes_Equal_eq (a b : bytes) : bytes_Equal a b = true <-> a = b.
Proof.
  revert b. induction a as [|x a IH]; intros [|y b]; simpl; split;
    try reflexivity; try discriminate.
  - intros H. apply andb_prop in H as [H1 H2].
    apply Byte.byte_dec_bl in H1. apply IH in H2. now subst.
  - intros H. inversion H; subst. apply andb_true_intro. split.
    + now apply Byte.byte_dec_lb.
    + now apply IH.
Qed.

Lemma bytes_Equal_refl (a : bytes) : bytes_Equal a a = true.
Proof. now apply bytes_Equal_eq. Qed.

Lemma string_of_list_byte_length (l : bytes) :
  String.length (string_of_list_byte l) = List.length l.
Proof.
  induction l as [|x l IH]; simpl; [reflexivity|]. now f_equal.
Qed.

Lemma list_byte_of_string_length (s : string) :
  List.length (list_byte_of_string s) = String.length s.
Proof.
  induction s as [|c s IH]; simpl; [reflexivity|]. now f_equal.
Qed.

Lemma string_of_list_byte_app (l1 l2 : bytes) :
  string_of_list_byte (l1 ++ l2)
  = (string_of_list_byte l1 ++ string_of_list_byte l2)%string.
Proof.
  induction l1 as [|x l1 IH]; simpl; [reflexivity|].
  unfold string_of_list_byte in *. simpl. now rewrite IH.
Qed.

Lemma list_byte_of_string_inj (s t : string) :
  list_byte_of_string s = list_byte_of_string t -> s = t.
Proof.
  intros H. rewrite <- (string_of_list_byte_of_string s),
    <- (string_of_list_byte_of_string t), H. reflexivity.
Qed.

Lemma substring_all (s : string) : substring 0 (String.length s) s = s.
Proof.
  induction s as [|c s IH]; simpl; [reflexivity|]. now rewrite IH.
Qed.

Lemma substring_app_l (n : nat) (s t : string) :
  String.length s = n -> substring 0 n (s ++ t) = s.
Proof.
  intros <-. induction s as [|c s IH]; simpl.
  - destruct t; reflexivity.
  - now rewrite IH.
Qed.

Lemma substring_app_r (n m : nat) (s t : string) :
  String.length s = n -> String.length t = m -> substring n m (s ++ t) = t.
Proof.
  intros <- <-. induction s as [|c s IH]; simpl.
  - apply substring_all.
  - exact IH.
Qed.

Lemma string_length_app (s t : string) :
  String.length (s ++ t) = (String.length s + String.length t)%nat.
Proof.
  induction s as [|c s IH]; simpl; [reflexivity|]. now rewrite IH.
Qed.

End GoFacts.

(** ** Positional notation *)

Section Positional.

Variable B : Z.
Hypothesis B_gt_1 : 1 < B.

Lemma val_nil : val B [] = 0.
Proof. reflexivity. Qed.

Lemma val_snoc (l : list Z) (c : Z) : val B (l ++ [c]) = val B l * B + c.
Proof. unfold val. rewrite fold_left_app. reflexivity. Qed.

Lemma val_fold (l : list Z) (a : Z) :
  fold_left (fun acc c => acc * B + c) l a = a * B ^ Z.of_nat (List.length l) + val B l.
Proof.
  unfold val. revert a. induction l as [|c l IH]; intros a.
  - simpl. lia.
  - cbn [fold_left List.length]. rewrite IH, (IH (0 * B + c)).
    rewrite Nat2Z.inj_succ, Z.pow_succ_r by lia. ring.
Qed.

Lemma val_cons (c : Z) (l : list Z) :
  val B (c :: l) = c * B ^ Z.of_nat (List.length l) + val B l.
Proof.
  unfold val at 1. cbn [fold_left]. rewrite val_fold. ring.
Qed.

Lemma val_repeat_0 (n : nat) : val B (repeat 0 n) = 0.
Proof.
  induction n as [|n IH]; [reflexivity|].
  cbn [repeat]. rewrite val_cons, IH. ring.
Qed.

Lemma digits_repeat_0 (n : nat) : digits B (repeat 0 n).
Proof.
  induction n as [|n IH]; constructor; [lia | exact IH].
Qed.

Lemma val_bound (l : list Z) :
  digits B l -> 0 <= val B l < B ^ Z.of_nat (List.length l).
Proof.
  induction 1 as [|c l Hc Hl IH].
  - cbn. lia.
  - rewrite val_cons. cbn [List.length].
    rewrite Nat2Z.inj_succ, Z.pow_succ_r by lia.
    set (P := B ^ Z.of_nat (List.length l)) in *.
    assert (0 < P) by (apply Z.pow_pos_nonneg; lia). nia.
Qed.

(** Two numerals of the same length that denote the same number are the
    same numeral. *)
Lemma val_inj (l1 l2 : list Z) :
  List.length l1 = List.length l2 -> digits B l1 -> digits B l2 ->
  val B l1 = val B l2 -> l1 = l2.
Proof.
  revert l2. induction l1 as [|c1 l1 IH]; intros [|c2 l2] Hlen H1 H2 Hv;
    try discriminate; [reflexivity|].
  inversion H1 as [|? ? Hc1 Hl1]; subst. inversion H2 as [|? ? Hc2 Hl2]; subst.
  cbn [List.length] in Hlen. injection Hlen as Hlen.
  rewrite !val_cons, <- Hlen in Hv.
  pose proof (val_bound l1 Hl1) as Hb1.
  pose proof (val_bound l2 Hl2) as Hb2. rewrite <- Hlen in Hb2.
  set (P := B ^ Z.of_nat (List.length l1)) in *.
  assert (c1 = c2) by nia. subst c2.
  f_equal. apply IH; auto. lia.
Qed.

(** A numeral without leading zero that denotes zero is empty. *)
Lemma normalized_val_0 (l : list Z) :
  digits B l -> normalized l -> val B l = 0 -> l = [].
Proof.
  destruct l as [|c l]; [reflexivity|]. intros Hd Hn Hv. exfalso.
  inversion Hd as [|? ? Hc Hl]; subst. cbn in Hn.
  rewrite val_cons in Hv. pose proof (val_bound l Hl) as Hb.
  set (P := B ^ Z.of_nat (List.length l)) in *.
  assert (0 < P) by (apply Z.pow_pos_nonneg; lia). nia.
Qed.

End Positional.

(** ** The inner loop is a long division *)

Section DivideFacts.

Variables (srcBase dstBase : Z) (conv : Z -> Z).
Hypothesis src_gt_1 : 1 < srcBase.
Hypothesis dst_pos : 0 < dstBase.
Hypothesis no_overflow : srcBase * dstBase <= 2 ^ 64.
Hypothesis conv_id : forall d, 0 <= d < srcBase -> conv d = d.

Lemma divide_spec (bp quotient : list Z) (remainder : Z) :
  digits srcBase bp -> digits srcBase quotient -> normalized quotient ->
  0 <= remainder < dstBase ->
  forall q r, ksuid.divide srcBase dstBase conv bp quotient remainder = (q, r) ->
  digits srcBase q /\ normalized q /\ 0 <= r < dstBase /\
  val srcBase q * dstBase + r
  = (val srcBase quotient * dstBase + remainder) * srcBase ^ Z.of_nat (List.length bp)
    + val srcBase bp.
Proof.
  revert quotient remainder.
  induction bp as [|c bp IH]; intros quotient remainder Hbp Hq Hn Hr q r E.
  - cbn in E. injection E as <- <-. cbn. repeat split; auto; try lia.
  - inversion Hbp as [|? ? Hc Hbp']; subst.
    cbn [ksuid.divide] in E.
    assert (Hv : uint64 (uint64 c + uint64 (uint64 remainder * srcBase))
                 = c + remainder * srcBase).
    { unfold uint64.
      rewrite (Z.mod_small c) by nia.
      rewrite (Z.mod_small remainder) by nia.
      rewrite (Z.mod_small (remainder * srcBase)) by nia.
      apply Z.mod_small. nia. }
    rewrite Hv in E. clear Hv.
    set (value := c + remainder * srcBase) in *.
    assert (Hval : 0 <= value < srcBase * dstBase) by (unfold value; nia).
    pose proof (Z.div_mod value dstBase ltac:(lia)) as Hdm.
    pose proof (Z.mod_pos_bound value dstBase dst_pos) as Hm.
    assert (Hdig : 0 <= value / dstBase < srcBase).
    { split; [apply Z.div_pos; lia|]. apply Z.div_lt_upper_bound; lia. }
    rewrite (conv_id _ Hdig) in E.
    set (digit := value / dstBase) in *.
    set (r1 := value mod dstBase) in *.
    match type of E with
    | ksuid.divide _ _ _ _ ?t _ = _ => set (q1 := t) in *
    end.
    assert (Hq1 : digits srcBase q1 /\ normalized q1
                  /\ val srcBase q1 = val srcBase quotient * srcBase + digit).
    { unfold q1. destruct quotient as [|q0 qs].
      - cbn [List.length Nat.eqb negb orb].
        destruct (digit =? 0) eqn:Ed; cbn [negb].
        + apply Z.eqb_eq in Ed. rewrite Ed.
          split; [constructor | split; [exact I | reflexivity]].
        + apply Z.eqb_neq in Ed. cbn [app].
          split; [| split; [exact Ed | cbn; lia]].
          constructor; [exact Hdig | constructor].
      - cbn [List.length Nat.eqb negb orb].
        split; [| split; [exact Hn | apply val_snoc]].
        apply Forall_app. split; [exact Hq|].
        constructor; [exact Hdig | constructor]. }
    destruct Hq1 as (Hd1 & Hn1 & Hv1).
    specialize (IH q1 r1 Hbp' Hd1 Hn1 Hm q r E).
    destruct IH as (Hdq & Hnq & Hrr & Heq).
    repeat split; auto; try lia.
    rewrite Heq, Hv1, val_cons.
    cbn [List.length]. rewrite Nat2Z.inj_succ, Z.pow_succ_r by lia.
    unfold value in Hdm. fold digit r1 in Hdm.
    set (P := srcBase ^ Z.of_nat (List.length bp)) in *.
    replace (c * P) with ((dstBase * digit + r1 - remainder * srcBase) * P) by (rewrite <- Hdm; ring).
    ring.
Qed.

(** From an empty quotient and a zero remainder the loop computes the
    quotient and the remainder of the number by [dstBase]. *)
Lemma divide_top (bp : list Z) :
  digits srcBase bp ->
  forall q r, ksuid.divide srcBase dstBase conv bp [] 0 = (q, r) ->
  digits srcBase q /\ normalized q /\ 0 <= r < dstBase /\
  val srcBase q * dstBase + r = val srcBase bp.
Proof.
  intros Hbp q r E.
  destruct (divide_spec bp [] 0 Hbp (Forall_nil _) I ltac:(lia) q r E)
    as (H1 & H2 & H3 & H4).
  split; [exact H1 | split; [exact H2 | split; [exact H3 |]]].
  rewrite H4, val_nil. ring.
Qed.

End DivideFacts.

(** ** Big-endian words *)

Section WordFacts.

Lemma bits_above (a k n : Z) : 0 <= a < 2 ^ k -> k <= n -> Z.testbit a n = false.
Proof.
  intros [Ha Hk] Hn.
  destruct (Z.eq_dec a 0) as [->|Hnz]; [apply Z.bits_0|].
  apply Z.bits_above_log2; [exact Ha|].
  assert (Z.log2 a < k); [|lia].
  apply Z.log2_lt_pow2; lia.
Qed.

Lemma lor_disjoint (a m k : Z) :
  0 <= k -> 0 <= a < 2 ^ k -> Z.lor a (m * 2 ^ k) = a + m * 2 ^ k.
Proof.
  intros Hk Ha.
  assert (Hl : Z.land a (m * 2 ^ k) = 0).
  { apply Z.bits_inj'. intros n Hn. rewrite Z.land_spec, Z.bits_0.
    destruct (Z.lt_ge_cases n k) as [Hlt|Hge].
    - rewrite Z.mul_pow2_bits_low by lia. apply andb_false_r.
    - rewrite (bits_above a k n Ha Hge). reflexivity. }
  rewrite <- Z.lxor_lor by exact Hl.
  symmetry. apply Z.add_nocarry_lxor. exact Hl.
Qed.

Lemma Uint32_value (b0 b1 b2 b3 : byte) :
  ksuid.Uint32 [b0; b1; b2; b3]
  = byte_val b0 * 2 ^ 24 + byte_val b1 * 2 ^ 16 + byte_val b2 * 2 ^ 8 + byte_val b3.
Proof.
  unfold ksuid.Uint32. cbn [nth].
  pose proof (byte_val_range b0). pose proof (byte_val_range b1).
  pose proof (byte_val_range b2). pose proof (byte_val_range b3).
  rewrite !Z.shiftl_mul_pow2 by lia.
  rewrite (lor_disjoint (byte_val b1 * 2 ^ 16) (byte_val b0) 24) by lia.
  replace (byte_val b1 * 2 ^ 16 + byte_val b0 * 2 ^ 24)
    with ((byte_val b1 + byte_val b0 * 2 ^ 8) * 2 ^ 16) by ring.
  rewrite (lor_disjoint (byte_val b2 * 2 ^ 8) _ 16) by lia.
  replace (byte_val b2 * 2 ^ 8 + (byte_val b1 + byte_val b0 * 2 ^ 8) * 2 ^ 16)
    with ((byte_val b2 + (byte_val b1 + byte_val b0 * 2 ^ 8) * 2 ^ 8) * 2 ^ 8) by ring.
  rewrite (lor_disjoint (byte_val b3) _ 8) by lia.
  ring.
Qed.

Lemma Uint32_range (b0 b1 b2 b3 : byte) :
  0 <= ksuid.Uint32 [b0; b1; b2; b3] < 4294967296.
Proof.
  rewrite Uint32_value.
  pose proof (byte_val_range b0). pose proof (byte_val_range b1).
  pose proof (byte_val_range b2). pose proof (byte_val_range b3). lia.
Qed.

Lemma uint8_of_mod (z : Z) (b : byte) : z mod 256 = byte_val b -> uint8 z = b.
Proof.
  intros H. apply byte_val_inj. rewrite byte_val_uint8. exact H.
Qed.

Lemma PutUint32_Uint32 (b0 b1 b2 b3 : byte) :
  ksuid.PutUint32 (ksuid.Uint32 [b0; b1; b2; b3]) = [b0; b1; b2; b3].
Proof.
  rewrite Uint32_value. unfold ksuid.PutUint32.
  pose proof (byte_val_range b0). pose proof (byte_val_range b1).
  pose proof (byte_val_range b2). pose proof (byte_val_range b3).
  rewrite !Z.shiftr_div_pow2 by lia.
  change (2 ^ 24) with 16777216. change (2 ^ 16) with 65536. change (2 ^ 8) with 256.
  repeat f_equal; apply uint8_of_mod; Z.div_mod_to_equations; lia.
Qed.

Lemma words_digits (k : ksuid.KSUID) : digits 4294967296 (words k).
Proof.
  do 20 (destruct k as [? k]). unfold words, sub. cbn [slice fst snd skipn firstn Nat.sub].
  repeat constructor; apply Uint32_range.
Qed.

Lemma words_bytes (k : ksuid.KSUID) : flat_map ksuid.PutUint32 (words k) = slice k.
Proof.
  do 20 (destruct k as [? k]). unfold words, sub, ksuid.byteLength.
  cbn [slice fst snd skipn firstn Nat.sub Nat.add flat_map
       ksuid.timestampLengthInBytes ksuid.payloadLengthInBytes].
  rewrite !PutUint32_Uint32. destruct k. reflexivity.
Qed.

Lemma base62Value_char62 (d : Z) :
  0 <= d < 62 -> byte_val (ksuid.base62Value (char62 d)) = d.
Proof.
  intros Hd.
  assert (H : forallb (fun i => byte_val (ksuid.base62Value (char62 (Z.of_nat i)))
                                =? Z.of_nat i) (seq 0 62) = true)
    by (vm_compute; reflexivity).
  rewrite forallb_forall in H.
  specialize (H (Z.to_nat d)). rewrite Z2Nat.id in H by lia.
  apply Z.eqb_eq, H, in_seq. lia.
Qed.

Lemma base62Value_map_char62 (ds : list Z) :
  digits 62 ds -> map (fun c => byte_val (ksuid.base62Value c)) (map char62 ds) = ds.
Proof.
  induction 1 as [|d ds Hd Hds IH]; [reflexivity|].
  cbn [map]. rewrite IH, base62Value_char62 by exact Hd. reflexivity.
Qed.

End WordFacts.

(** ** The base-62 codec of [ksuid] *)

Section CodecFacts.

Lemma B32_gt_1 : 1 < 4294967296.
Proof. lia. Qed.

Lemma B62_gt_1 : 1 < 62.
Proof. lia. Qed.

Lemma zero_padding_62 (n : nat) :
  (n <= 27)%nat -> firstn n ksuid.zeroString = map char62 (repeat 0 n).
Proof.
  intros Hn. do 28 (destruct n as [|n]; [reflexivity|]). lia.
Qed.

Lemma zero_padding_32 (m : nat) :
  (m <= 5)%nat ->
  firstn (4 * m) (slice (zero 20)) = flat_map ksuid.PutUint32 (repeat 0 m).
Proof.
  intros Hm. do 6 (destruct m as [|m]; [reflexivity|]). lia.
Qed.

(** The encoder's outer loop writes, most significant first, the [n]
    base-62 digits of the number held in [bp]; it stays inside the buffer
    as long as that number has at most [n] digits. *)
Lemma encodeLoop_spec (n : nat) :
  forall (bp : list Z) (tail : bytes),
    (n <= 27)%nat -> digits 4294967296 bp ->
    (0 < n)%nat \/ normalized bp ->
    val 4294967296 bp < 62 ^ Z.of_nat n ->
    exists ds,
      List.length ds = n /\ digits 62 ds /\ val 62 ds = val 4294967296 bp /\
      ksuid.encodeLoop n bp tail = Some (map char62 ds ++ tail).
Proof.
  induction n as [|n IH]; intros bp tail Hn Hbp Hnz Hv.
  - destruct Hnz as [Hnz|Hnz]; [lia|].
    pose proof (val_bound _ B32_gt_1 bp Hbp) as Hb.
    assert (bp = []) as -> by (apply (normalized_val_0 _ B32_gt_1); auto; cbn in Hv; lia).
    exists []. repeat split; constructor.
  - destruct bp as [|c bp].
    + exists (repeat 0 (S n)). split; [apply repeat_length|].
      split; [apply digits_repeat_0; lia|].
      split; [apply val_repeat_0; lia|].
      cbn [ksuid.encodeLoop]. now rewrite zero_padding_62.
    + cbn [ksuid.encodeLoop].
      destruct (ksuid.divide 4294967296 62 uint32 (c :: bp) [] 0) as [q r] eqn:E.
      apply (divide_top 4294967296 62 uint32) in E; try lia; try exact Hbp.
      2:{ intros d Hd. unfold uint32. apply Z.mod_small. lia. }
      destruct E as (Hq & Hqn & Hr & Heq).
      rewrite Nat2Z.inj_succ, Z.pow_succ_r in Hv by lia.
      destruct (IH q (nth (Z.to_nat r) ksuid.base62Characters x00 :: tail))
        as (ds & Hlen & Hds & Hval & Henc); auto; try lia.
      exists (ds ++ [r]).
      split; [rewrite length_app; cbn; lia|].
      split; [apply Forall_app; split; [exact Hds | constructor; [lia | constructor]]|].
      split; [rewrite val_snoc; lia|].
      rewrite Henc, map_app, <- app_assoc. reflexivity.
Qed.

Lemma decodeLoop_nil (dst : bytes) (n : nat) (tail : bytes) :
  ksuid.decodeLoop dst n [] tail = (firstn n (slice (zero 20)) ++ tail, None).
Proof. destruct n; reflexivity. Qed.

(** The decoder's outer loop writes the [m] 32-bit words of the number
    held in [bp]; it reports no error as long as that number fits. *)
Lemma decodeLoop_spec (m : nat) :
  forall (dst : bytes) (bp : list Z) (tail : bytes),
    (m <= 5)%nat -> digits 62 bp ->
    (0 < m)%nat \/ normalized bp ->
    val 62 bp < 4294967296 ^ Z.of_nat m ->
    exists ls,
      List.length ls = m /\ digits 4294967296 ls /\ val 4294967296 ls = val 62 bp /\
      ksuid.decodeLoop dst (4 * m) bp tail = (flat_map ksuid.PutUint32 ls ++ tail, None).
Proof.
  induction m as [|m IH]; intros dst bp tail Hm Hbp Hnz Hv.
  - destruct Hnz as [Hnz|Hnz]; [lia|].
    pose proof (val_bound _ B62_gt_1 bp Hbp) as Hb.
    assert (bp = []) as -> by (apply (normalized_val_0 _ B62_gt_1); auto; cbn in Hv; lia).
    exists []. repeat split; constructor.
  - destruct bp as [|c bp].
    + exists (repeat 0 (S m)). split; [apply repeat_length|].
      split; [apply digits_repeat_0; lia|].
      split; [apply val_repeat_0; lia|].
      rewrite decodeLoop_nil. now rewrite zero_padding_32.
    + replace (4 * S m)%nat with (S (S (S (S (4 * m))))) by lia.
      cbn [ksuid.decodeLoop].
      destruct (ksuid.divide 62 4294967296 (fun d => d mod 256) (c :: bp) [] 0)
        as [q r] eqn:E.
      apply (divide_top 62 4294967296 (fun d => d mod 256)) in E; try lia; try exact Hbp.
      2:{ intros d Hd. apply Z.mod_small. lia. }
      destruct E as (Hq & Hqn & Hr & Heq).
      rewrite Nat2Z.inj_succ, Z.pow_succ_r in Hv by lia.
      destruct (IH dst q (ksuid.PutUint32 r ++ tail))
        as (ls & Hlen & Hls & Hval & Hdec); auto; try lia.
      exists (ls ++ [r]).
      split; [rewrite length_app; cbn; lia|].
      split; [apply Forall_app; split; [exact Hls | constructor; [lia | constructor]]|].
      split; [rewrite val_snoc; lia|].
      rewrite Hdec, flat_map_app, <- app_assoc. cbn [flat_map].
      rewrite app_nil_r. reflexivity.
Qed.

(** The encoder never leaves its buffer: on every KSUID it produces the
    27 base-62 digits of the 160-bit number. *)
Lemma fastEncodeBase62_total (k : ksuid.KSUID) :
  exists ds,
    List.length ds = 27%nat /\ digits 62 ds /\ val 62 ds = val 4294967296 (words k) /\
    ksuid.fastEncodeBase62 k = Some (map char62 ds).
Proof.
  pose proof (words_digits k) as Hw.
  pose proof (val_bound _ B32_gt_1 _ Hw) as Hb.
  destruct (encodeLoop_spec 27 (words k) []) as (ds & H1 & H2 & H3 & H4); auto.
  { left. lia. }
  { change (List.length (words k)) with 5%nat in Hb.
    eapply Z.lt_trans; [apply Hb|]. reflexivity. }
  exists ds. repeat split; auto. rewrite app_nil_r in H4. exact H4.
Qed.

Lemma Append_spec (k : ksuid.KSUID) (b : bytes) :
  exists ds,
    List.length ds = 27%nat /\ digits 62 ds /\ val 62 ds = val 4294967296 (words k) /\
    ksuid.Append k b = b ++ map char62 ds.
Proof.
  destruct (fastEncodeBase62_total k) as (ds & H1 & H2 & H3 & H4).
  exists ds. repeat split; auto.
  unfold ksuid.Append, ksuid.fastAppendEncodeBase62. rewrite H4. reflexivity.
Qed.

Lemma Append_app (k : ksuid.KSUID) (b : bytes) :
  ksuid.Append k b = b ++ ksuid.Append k [].
Proof.
  unfold ksuid.Append, ksuid.fastAppendEncodeBase62.
  destruct (ksuid.fastEncodeBase62 k); cbn; [reflexivity | now rewrite app_nil_r].
Qed.

Lemma Append_length (k : ksuid.KSUID) :
  List.length (ksuid.Append k []) = 27%nat.
Proof.
  destruct (Append_spec k []) as (ds & H1 & _ & _ & H4).
  rewrite H4. cbn. now rewrite length_map.
Qed.

Lemma ksuid_FromBytes_slice (k : ksuid.KSUID) : ksuid.FromBytes (slice k) = (k, None).
Proof.
  unfold ksuid.FromBytes. rewrite slice_length, Nat.eqb_refl. cbn [negb].
  now rewrite copy_slice.
Qed.

(** [ksuid.Parse] inverts [KSUID.String]. *)
Lemma ksuid_Parse_String (k : ksuid.KSUID) : ksuid.Parse (ksuid.String k) = (k, None).
Proof.
  destruct (Append_spec k []) as (ds & Hlen & Hds & Hval & Happ).
  cbn [app] in Happ.
  unfold ksuid.Parse, ksuid.String. rewrite Happ.
  rewrite string_of_list_byte_length, length_map, Hlen.
  cbn [Nat.eqb negb ksuid.stringEncodedLength].
  rewrite list_byte_of_string_of_list_byte.
  unfold ksuid.fastDecodeBase62.
  rewrite slice_copy by (rewrite length_map; exact Hlen).
  rewrite base62Value_map_char62 by exact Hds.
  pose proof (words_digits k) as Hw.
  pose proof (val_bound _ B32_gt_1 _ Hw) as Hb.
  change (List.length (words k)) with 5%nat in Hb.
  rewrite slice_length.
  destruct (decodeLoop_spec 5 (slice (zero ksuid.byteLength)) ds [])
    as (ls & Hl1 & Hl2 & Hl3 & Hl4); auto.
  { left. lia. }
  { rewrite Hval. apply Hb. }
  change (4 * 5)%nat with ksuid.byteLength in Hl4. rewrite Hl4, app_nil_r.
  assert (ls = words k) as ->.
  { apply (val_inj _ B32_gt_1); auto. congruence. }
  rewrite words_bytes. apply ksuid_FromBytes_slice.
Qed.

End CodecFacts.

(** ** Namespaces *)

Section NamespaceFacts.

Lemma NewNamespace_ok (v : string) :
  String.length v = 3%nat ->
  NewNamespace v = (copy (zero nsLength) (list_byte_of_string v), None).
Proof.
  intros H. unfold NewNamespace.
  rewrite list_byte_of_string_length, H. reflexivity.
Qed.

Lemma NewNamespace_bad (v : string) :
  String.length v <> 3%nat -> NewNamespace v = (zero nsLength, Some errNamespaceSize).
Proof.
  intros H. unfold NewNamespace. rewrite list_byte_of_string_length.
  apply Nat.eqb_neq in H. change nsLength with 3%nat. now rewrite H.
Qed.

Lemma Namespace_Bytes_slice (n : Namespace) : Namespace.Bytes n = slice n.
Proof. reflexivity. Qed.

Lemma Namespace_Bytes_length (n : Namespace) : List.length (Namespace.Bytes n) = 3%nat.
Proof. apply (slice_length (n := 3)). Qed.

Lemma Namespace_String_length (n : Namespace) : String.length (Namespace.String n) = 3%nat.
Proof.
  unfold Namespace.String. rewrite string_of_list_byte_length.
  apply Namespace_Bytes_length.
Qed.

Lemma NewNamespace_String (n : Namespace) : NewNamespace (Namespace.String n) = (n, None).
Proof.
  rewrite NewNamespace_ok by apply Namespace_String_length.
  unfold Namespace.String. rewrite list_byte_of_string_of_list_byte.
  f_equal. apply (copy_slice (n := 3)).
Qed.

Lemma Unknown_init : MustNamespace "unk" = Return Unknown.
Proof. reflexivity. Qed.

Lemma Unknown_String : Namespace.String Unknown = "unk"%string.
Proof. reflexivity. Qed.

End NamespaceFacts.

(** ** Identifiers *)

Section IDFacts.

Lemma ID_Append_app (i : ID) (b : bytes) :
  ID.Append i b = b ++ Namespace.Bytes (ns i) ++ ksuid.Append (ksuid i) [].
Proof.
  unfold ID.Append. rewrite Append_app, <- app_assoc. reflexivity.
Qed.

Lemma ID_String_split (i : ID) :
  ID.String i = (Namespace.String (ns i) ++ ksuid.String (ksuid i))%string.
Proof.
  unfold ID.String. rewrite ID_Append_app. cbn [app].
  apply string_of_list_byte_app.
Qed.

Lemma ksuid_String_length (k : ksuid.KSUID) : String.length (ksuid.String k) = 27%nat.
Proof.
  unfold ksuid.String. rewrite string_of_list_byte_length. apply Append_length.
Qed.

Lemma ID_String_length (i : ID) : String.length (ID.String i) = 30%nat.
Proof.
  rewrite ID_String_split, string_length_app, Namespace_String_length, ksuid_String_length.
  reflexivity.
Qed.

Lemma ID_Bytes_split (i : ID) : ID.Bytes i = Namespace.Bytes (ns i) ++ slice (ksuid i).
Proof. reflexivity. Qed.

Lemma ID_Bytes_length (i : ID) : List.length (ID.Bytes i) = 23%nat.
Proof.
  rewrite ID_Bytes_split, length_app, Namespace_Bytes_length.
  rewrite (slice_length (n := 20)). reflexivity.
Qed.

(** [Parse] inverts [ID.String]. *)
Lemma Parse_String (i : ID) : Parse (ID.String i) = (i, None).
Proof.
  unfold Parse. rewrite ID_String_length.
  cbn [Nat.eqb negb stringEncodedLength nsLength byteLength baseLength Nat.sub].
  rewrite ID_String_split.
  pose proof (Namespace_String_length (ns i)) as Hn.
  pose proof (ksuid_String_length (ksuid i)) as Hk.
  rewrite (substring_app_l 3 _ _ Hn), (substring_app_r 3 27 _ _ Hn Hk).
  rewrite NewNamespace_String, ksuid_Parse_String.
  destruct i; reflexivity.
Qed.

(** [FromBytes] inverts [ID.Bytes]. *)
Lemma FromBytes_Bytes (i : ID) : FromBytes (ID.Bytes i) = (i, None).
Proof.
  unfold FromBytes. rewrite ID_Bytes_length. cbn [Nat.eqb byteLength].
  destruct i as [n k]. rewrite ID_Bytes_split. cbn [ns ksuid].
  destruct n as [a [b [c []]]].
  cbn [Namespace.Bytes Namespace.Append nsLength byteLength baseLength Nat.sub
       slice fst snd app skipn sub firstn].
  rewrite ksuid_FromBytes_slice. reflexivity.
Qed.

Lemma ID_Equal_eq (i j : ID) : ID.Equal i j = true <-> i = j.
Proof.
  unfold ID.Equal, Namespace.Equal, Namespace.raw.
  rewrite andb_true_iff, !bytes_Equal_eq. split.
  - intros [H1 H2]. apply (slice_inj (n := 3)) in H1. apply slice_inj in H2.
    destruct i, j; cbn in *; congruence.
  - intros ->. split; reflexivity.
Qed.

Lemma bare_bytes_Unknown (b : bytes) (id : ID) :
  List.length b <> 23%nat -> FromBytes b = (id, None) -> ns id = Unknown.
Proof.
  intros Hb. unfold FromBytes. apply Nat.eqb_neq in Hb.
  change byteLength with 23%nat. rewrite Hb.
  destruct (ksuid.FromBytes b) as [v [e|]]; returned.
Qed.

Lemma bare_string_Unknown (s : string) (id : ID) :
  String.length s = 27%nat -> Parse s = (id, None) -> ns id = Unknown.
Proof.
  intros Hs. unfold Parse. rewrite Hs.
  cbn [Nat.eqb stringEncodedLength nsLength byteLength baseLength Nat.sub].
  destruct (ksuid.Parse s) as [v [e|]]; returned.
Qed.

Lemma ksuid_Parse_error (t : string) (v : ksuid.KSUID) (e : error) :
  ksuid.Parse t = (v, Some e) ->
  e = ksuid_errStrSize \/ e = ksuid_errStrValue \/ e = ksuid_errSize.
Proof.
  unfold ksuid.Parse.
  destruct (negb _); [returned|].
  destruct (ksuid.fastDecodeBase62 _ _) as [dst [e'|]]; [returned|].
  unfold ksuid.FromBytes. destruct (negb _); returned.
Qed.

(** [ksuid.FromBytes] accepts every 20-byte buffer. *)
Lemma ksuid_FromBytes_accepts (b : bytes) :
  List.length b = 20%nat -> exists v, ksuid.FromBytes b = (v, None) /\ slice v = b.
Proof.
  intros H. unfold ksuid.FromBytes. rewrite H. cbn [Nat.eqb ksuid.byteLength negb].
  eexists. split; [reflexivity|]. now apply slice_copy.
Qed.

(** Minting succeeds as soon as the entropy source delivers 16 bytes. *)
Lemma NewRandomWithTime_succeeds (n : Namespace) (t : time.Time) (w : World) :
  (16 <= List.length (rander w))%nat ->
  exists id w', NewRandomWithTime n t w = (id, None, w') /\ ns id = n.
Proof.
  intros H. unfold NewRandomWithTime, ksuid.NewRandomWithTime, ksuid.ReadAtLeast.
  cbn [Nat.ltb Nat.leb ksuid.payloadLengthInBytes].
  rewrite length_firstn, Nat.min_l by exact H.
  cbn [Nat.leb]. eexists. eexists. split; reflexivity.
Qed.

End IDFacts.

(** ** The test-suite, replayed

    The cases of the package's tests that need no fresh randomness. *)

Section Tests.

Example TestNewNamespace_bad :
  snd (NewNamespace "too-long") = Some errNamespaceSize.
Proof. reflexivity. Qed.

Example TestNamespace_Bytes :
  Namespace.Bytes sample_ns = list_byte_of_string "bla".
Proof. reflexivity. Qed.

Example TestNamespace_Equal :
  Namespace.Equal sample_ns (any_Namespace sample_ns) = true
  /\ Namespace.Equal sample_ns (any_Namespace ("e", ("e", ("k", tt)))%byte) = false
  /\ Namespace.Equal sample_ns (any_array3 ("a", ("b", ("c", tt)))%byte) = false
  /\ Namespace.Equal sample_ns (any_bytes (Namespace.Bytes sample_ns)) = true
  /\ Namespace.Equal sample_ns (any_string (Namespace.String sample_ns)) = true
  /\ Namespace.Equal sample_ns (any_int 123) = false.
Proof. repeat split. Qed.

Example TestFromString_parse_ksuid :
  Parse sample_ksuid_string
  = ({| ns := Unknown; ksuid := copy (zero 20) sample_ksuid_bytes |}, None).
Proof. vm_compute. reflexivity. Qed.

Example TestID_UnmarshalJSON_ok :
  ID.UnmarshalJSON json.Unmarshal zeroID (fst (ID.MarshalJSON sample_id))
  = (sample_id, None).
Proof. vm_compute. reflexivity. Qed.

Example TestID_UnmarshalJSON_bad_json :
  snd (ID.UnmarshalJSON json.Unmarshal zeroID (x22 :: list_byte_of_string "bad-json"))
  = Some json_SyntaxError.
Proof. vm_compute. reflexivity. Qed.

Example TestID_UnmarshalJSON_bad_ksuid :
  snd (ID.UnmarshalJSON json.Unmarshal zeroID
         (x22 :: list_byte_of_string "invalid-ksuid" ++ [x22]))
  = Some errStringSize.
Proof. vm_compute. reflexivity. Qed.

(** The decoder on the other kinds of JSON text: a value that is not a
    string is a type error, an escape is decoded, valid UTF-8 is kept and
    an invalid byte is replaced by U+FFFD. *)
Example json_Unmarshal_kinds :
  json.Unmarshal (list_byte_of_string "123") "s"%string = ("s"%string, Some json_UnmarshalTypeError)
  /\ json.Unmarshal (list_byte_of_string " [true, null] ") "s"%string
     = ("s"%string, Some json_UnmarshalTypeError)
  /\ json.Unmarshal (list_byte_of_string "nul") "s"%string = ("s"%string, Some json_SyntaxError)
  /\ json.Unmarshal (x22 :: list_byte_of_string "\u0041\t\ud83d\ude00" ++ [x22]) "s"%string
     = (string_of_list_byte [x41; x09; xf0; x9f; x98; x80], None)
  /\ json.Unmarshal [x22; xc3; xa9; xff; x22] "s"%string
     = (string_of_list_byte [xc3; xa9; xef; xbf; xbd], None).
Proof. vm_compute. repeat split. Qed.

Example TestID_IsNil : ID.IsNil Nil = true.
Proof. reflexivity. Qed.

Example TestID_Time :
  time.Unix sample_time - time.Unix (ID.Time sample_id) <= 1.
Proof. vm_compute. discriminate. Qed.

End Tests.

(** ** Properties of the specification *)

Lemma substring_length (n m : nat) (s : string) :
  (n + m <= String.length s)%nat -> String.length (substring n m s) = m.
Proof.
  revert n m. induction s as [|c s IH]; intros n m H; cbn in H.
  - assert (n = 0%nat) as -> by lia. assert (m = 0%nat) as -> by lia. reflexivity.
  - destruct n as [|n]; cbn.
    + destruct m as [|m]; [reflexivity|]. cbn. f_equal. apply (IH 0%nat). lia.
    + apply IH. lia.
Qed.

(** C1: an identifier minted by [NewRandomWithTime] carries the namespace
    it was minted with and round-trips through both codecs: parsing its
    string form returns it without error, and so does decoding its binary
    form. *)
Theorem mint_round_trip (ns0 : Namespace) (t : time.Time) (w w' : World) (id : ID) :
  NewRandomWithTime ns0 t w = (id, None, w') ->
  Parse (ID.String id) = (id, None)
  /\ FromBytes (ID.Bytes id) = (id, None)
  /\ ID.Equal (fst (Parse (ID.String id))) id = true
  /\ ID.Equal (fst (FromBytes (ID.Bytes id))) id = true
  /\ ID.Namespace id = ns0.
Proof.
  intros Hmint.
  rewrite Parse_String, FromBytes_Bytes. cbn [fst].
  repeat split; try (apply ID_Equal_eq; reflexivity).
  unfold NewRandomWithTime in Hmint.
  destruct (ksuid.NewRandomWithTime t w) as [[v [e|]] w1]; inversion Hmint; reflexivity.
Qed.

Lemma mint_round_trip_witness :
  Parse (ID.String sample_id) = (sample_id, None)
  /\ FromBytes (ID.Bytes sample_id) = (sample_id, None)
  /\ ID.Equal (fst (Parse (ID.String sample_id))) sample_id = true
  /\ ID.Equal (fst (FromBytes (ID.Bytes sample_id))) sample_id = true
  /\ ID.Namespace sample_id = sample_ns.
Proof.
  apply (mint_round_trip sample_ns sample_time sample_world
           (snd (NewRandomWithTime sample_ns sample_time sample_world))).
  vm_compute. reflexivity.
Defined.

(** C2, as stated, fails: on the nil identifier [Bytes] yields the 23 raw
    bytes and [Append] on an empty buffer the 30 characters of the string
    form. *)
Lemma Bytes_differs_from_Append :
  ID.Bytes Nil = list_byte_of_string "unk" ++ repeat x00 20
  /\ ID.Append Nil [] = list_byte_of_string "unk000000000000000000000000000"
  /\ ID.Bytes Nil <> ID.Append Nil [].
Proof.
  split; [reflexivity|]. split; [vm_compute; reflexivity|].
  vm_compute. discriminate.
Qed.

(** C2, amended: for every identifier, [Bytes] is the 23-byte sequence made
    of the namespace bytes and the 20 raw KSUID bytes, while [Append] on an
    empty buffer is the 30-byte sequence made of the namespace bytes and
    the 27 characters of the KSUID's string form, that is the content of
    [String]; the two encodings are never the same. *)
Theorem Bytes_and_Append_encodings (id : ID) :
  ID.Bytes id = Namespace.Bytes (ns id) ++ ksuid.Bytes (ksuid id)
  /\ List.length (ID.Bytes id) = 23%nat
  /\ ID.Append id [] = Namespace.Bytes (ns id) ++ list_byte_of_string (ksuid.String (ksuid id))
  /\ ID.Append id [] = list_byte_of_string (ID.String id)
  /\ List.length (ID.Append id []) = 30%nat
  /\ ID.Bytes id <> ID.Append id [].
Proof.
  assert (Hs : ID.Append id [] = list_byte_of_string (ID.String id)).
  { unfold ID.String. now rewrite list_byte_of_string_of_list_byte. }
  assert (Hl : List.length (ID.Append id []) = 30%nat).
  { rewrite Hs, list_byte_of_string_length. apply ID_String_length. }
  split; [reflexivity|]. split; [apply ID_Bytes_length|].
  split; [|split; [exact Hs | split; [exact Hl|]]].
  - rewrite ID_Append_app. cbn [app]. unfold ksuid.String.
    now rewrite list_byte_of_string_of_list_byte.
  - intros E. pose proof (ID_Bytes_length id) as Hb. rewrite E, Hl in Hb. discriminate.
Qed.

(** C3, as stated, fails: with a decoder that leaves a string target
    untouched on [null], as [encoding/json] does, unmarshaling [null] into
    the zero identifier succeeds and stores [Nil], whose namespace is
    [unk], not the zero identifier. *)
Lemma UnmarshalJSON_null_is_not_zero :
  json.Unmarshal json_null EmptyString = (EmptyString, None)
  /\ ID.UnmarshalJSON json.Unmarshal zeroID json_null = (Nil, None)
  /\ ID.UnmarshalJSON json.Unmarshal zeroID json_null <> (zeroID, None).
Proof.
  split; [reflexivity|]. split; [reflexivity|]. vm_compute. discriminate.
Qed.

(** C3, amended: when the JSON decoder leaves the string target untouched
    on the token [null] and reports no error, unmarshaling [null] succeeds
    and sets the receiver, whatever it held, to the canonical [Nil]
    identifier (namespace [Unknown], all-zero KSUID), which differs from
    the zero identifier. *)
Theorem UnmarshalJSON_null_is_Nil (json_Unmarshal : json.StringDecoder) (i : ID) :
  json_Unmarshal json_null EmptyString = (EmptyString, None) ->
  ID.UnmarshalJSON json_Unmarshal i json_null = (Nil, None)
  /\ Nil = {| ns := Unknown; ksuid := ksuid.Nil |}
  /\ ID.IsNil Nil = true
  /\ Nil <> zeroID.
Proof.
  intros H. unfold ID.UnmarshalJSON. rewrite H. cbn [String.eqb].
  repeat split. discriminate.
Qed.

Lemma UnmarshalJSON_null_is_Nil_witness :
  ID.UnmarshalJSON json.Unmarshal sample_id json_null = (Nil, None)
  /\ Nil = {| ns := Unknown; ksuid := ksuid.Nil |}
  /\ ID.IsNil Nil = true
  /\ Nil <> zeroID.
Proof.
  apply (UnmarshalJSON_null_is_Nil json.Unmarshal sample_id). reflexivity.
Defined.

(** C4: a string whose length is neither 27 nor 30 is rejected by [Parse]
    with the sentinel [errStringSize] and the zero identifier; on a string
    of length 27 or 30 [Parse] never reports [errStringSize]: its error is
    the error of [ksuid.Parse] on the 27-character segment. *)
Theorem Parse_string_size (s : string) :
  (String.length s <> 27%nat -> String.length s <> 30%nat ->
   Parse s = (zeroID, Some errStringSize))
  /\ (String.length s = 27%nat \/ String.length s = 30%nat ->
      snd (Parse s) <> Some errStringSize
      /\ exists t, String.length t = 27%nat /\ snd (Parse s) = snd (ksuid.Parse t)).
Proof.
  assert (Hk : forall t, snd (ksuid.Parse t) <> Some errStringSize).
  { intros t E. destruct (ksuid.Parse t) as [v [e|]] eqn:Ep; [|discriminate].
    cbn in E. injection E as ->.
    destruct (ksuid_Parse_error _ _ _ Ep) as [H|[H|H]]; discriminate. }
  split.
  - intros H27 H30. unfold Parse.
    apply Nat.eqb_neq in H27, H30.
    change (stringEncodedLength - nsLength)%nat with 27%nat.
    change stringEncodedLength with 30%nat. now rewrite H27, H30.
  - intros Hlen.
    assert (Ht : exists t, String.length t = 27%nat /\ snd (Parse s) = snd (ksuid.Parse t)).
    { unfold Parse. change (stringEncodedLength - nsLength)%nat with 27%nat.
      change stringEncodedLength with 30%nat. change nsLength with 3%nat.
      destruct Hlen as [H|H]; rewrite H; cbn [Nat.eqb negb Nat.sub].
      - exists s. split; [exact H|]. destruct (ksuid.Parse s) as [v [e|]]; reflexivity.
      - rewrite NewNamespace_ok by (apply substring_length; lia).
        exists (substring 3 27 s). split; [apply substring_length; lia|].
        destruct (ksuid.Parse (substring 3 27 s)) as [v [e|]]; reflexivity. }
    split; [|exact Ht].
    destruct Ht as (t & _ & ->). apply Hk.
Qed.

Lemma Parse_string_size_witness :
  Parse "blah" = (zeroID, Some errStringSize)
  /\ snd (Parse sample_ksuid_string) <> Some errStringSize
  /\ snd (Parse (ID.String sample_id)) <> Some errStringSize.
Proof.
  split; [|split].
  - apply (proj1 (Parse_string_size "blah")); cbn; lia.
  - apply (proj2 (Parse_string_size sample_ksuid_string)). left. reflexivity.
  - apply (proj2 (Parse_string_size (ID.String sample_id))). right. reflexivity.
Defined.

(** C5: a 20-byte buffer accepted by [ksuid.FromBytes] is accepted by
    [FromBytes], and a 27-character string accepted by [ksuid.Parse] is
    accepted by [Parse]; in both cases the identifier holds the decoded
    KSUID under the namespace [Unknown]. *)
Theorem bare_forms_get_Unknown :
  (forall (b : bytes) (v : ksuid.KSUID),
      List.length b = 20%nat -> ksuid.FromBytes b = (v, None) ->
      FromBytes b = ({| ns := Unknown; ksuid := v |}, None)
      /\ ID.Namespace (fst (FromBytes b)) = Unknown)
  /\ (forall (s : string) (v : ksuid.KSUID),
      String.length s = 27%nat -> ksuid.Parse s = (v, None) ->
      Parse s = ({| ns := Unknown; ksuid := v |}, None)
      /\ ID.Namespace (fst (Parse s)) = Unknown).
Proof.
  split.
  - intros b v Hlen Hv. unfold FromBytes. rewrite Hlen, Hv. split; reflexivity.
  - intros s v Hlen Hv. unfold Parse. rewrite Hlen, Hv. split; reflexivity.
Qed.

Lemma bare_forms_get_Unknown_witness :
  (FromBytes sample_ksuid_bytes
   = ({| ns := Unknown; ksuid := copy (zero 20) sample_ksuid_bytes |}, None)
   /\ ID.Namespace (fst (FromBytes sample_ksuid_bytes)) = Unknown)
  /\ (Parse sample_ksuid_string
      = ({| ns := Unknown; ksuid := copy (zero 20) sample_ksuid_bytes |}, None)
      /\ ID.Namespace (fst (Parse sample_ksuid_string)) = Unknown).
Proof.
  split.
  - apply (proj1 bare_forms_get_Unknown); reflexivity.
  - apply (proj2 bare_forms_get_Unknown); vm_compute; reflexivity.
Defined.

(** C6: whenever [FromBytes] or [Parse] reports an error, the identifier
    returned with it is the zero value; whenever [UnmarshalJSON] reports an
    error, whatever the JSON decoder, the receiver keeps the value it had
    before the call. *)
Theorem decode_errors_are_atomic :
  (forall (b : bytes) (id : ID) (e : error),
      FromBytes b = (id, Some e) -> id = zeroID)
  /\ (forall (s : string) (id : ID) (e : error),
      Parse s = (id, Some e) -> id = zeroID)
  /\ (forall (json_Unmarshal : json.StringDecoder) (i : ID) (b : bytes) (i' : ID) (e : error),
      ID.UnmarshalJSON json_Unmarshal i b = (i', Some e) -> i' = i).
Proof.
  split; [|split].
  - intros b id e. unfold FromBytes.
    destruct (_ =? _)%nat;
      match goal with
      | |- context [ksuid.FromBytes ?x] => destruct (ksuid.FromBytes x) as [v [e'|]]
      end; returned.
  - intros s id e. unfold Parse.
    destruct (_ =? _)%nat.
    + destruct (ksuid.Parse s) as [v [e'|]]; returned.
    + destruct (negb _); [returned|].
      destruct (NewNamespace _) as [n [e'|]]; [returned|].
      destruct (ksuid.Parse _) as [v [e'|]]; returned.
  - intros J i b i' e. unfold ID.UnmarshalJSON.
    destruct (J b EmptyString) as [s [e'|]]; [returned|].
    destruct (String.eqb s EmptyString); [intros E; inversion E|].
    destruct (Parse s) as [id [e'|]]; returned.
Qed.

Lemma decode_errors_are_atomic_witness :
  fst (FromBytes (list_byte_of_string "blah")) = zeroID
  /\ fst (Parse "blah") = zeroID
  /\ fst (ID.UnmarshalJSON json.Unmarshal sample_id
            (x22 :: list_byte_of_string "invalid-ksuid" ++ [x22])) = sample_id.
Proof.
  destruct decode_errors_are_atomic as (HF & HP & HU).
  split; [|split].
  - apply (HF (list_byte_of_string "blah") _ ksuid_errSize). reflexivity.
  - apply (HP "blah"%string _ errStringSize). reflexivity.
  - apply (HU json.Unmarshal sample_id
             (x22 :: list_byte_of_string "invalid-ksuid" ++ [x22]) _ errStringSize).
    vm_compute. reflexivity.
Defined.

(** C7: when the JSON decoder stores the empty string for the literal of
    the empty string and reports no error, unmarshaling that literal
    succeeds and sets the receiver to the canonical [Nil] identifier: the
    namespace [Unknown] with the all-zero KSUID. *)
Theorem UnmarshalJSON_empty_string_is_Nil (json_Unmarshal : json.StringDecoder) (i : ID) :
  json_Unmarshal json_empty_string EmptyString = (EmptyString, None) ->
  ID.UnmarshalJSON json_Unmarshal i json_empty_string = (Nil, None)
  /\ ID.Namespace Nil = Unknown
  /\ ID.KSUID Nil = zero 20
  /\ ID.IsNil Nil = true.
Proof.
  intros H. unfold ID.UnmarshalJSON. rewrite H. cbn [String.eqb].
  repeat split.
Qed.

Lemma UnmarshalJSON_empty_string_is_Nil_witness :
  ID.UnmarshalJSON json.Unmarshal sample_id json_empty_string = (Nil, None)
  /\ ID.Namespace Nil = Unknown
  /\ ID.KSUID Nil = zero 20
  /\ ID.IsNil Nil = true.
Proof.
  apply (UnmarshalJSON_empty_string_is_Nil json.Unmarshal sample_id). reflexivity.
Defined.

(** C8: [Namespace.Equal] is a total byte-for-byte comparison: it answers
    true exactly when its argument is the same namespace, the 3-byte array
    of the same bytes, the byte slice of the same bytes or the string of
    the same bytes; a byte slice or a string of another length, and a value
    of any other dynamic type, compare unequal. *)
Theorem Namespace_Equal_spec (n : Namespace) (v : any) :
  (Namespace.Equal n v = true <->
   v = any_Namespace n
   \/ v = any_array3 n
   \/ v = any_bytes (Namespace.Bytes n)
   \/ v = any_string (Namespace.String n))
  /\ (forall b, List.length b <> 3%nat -> Namespace.Equal n (any_bytes b) = false)
  /\ (forall s, String.length s <> 3%nat -> Namespace.Equal n (any_string s) = false)
  /\ Namespace.Equal n any_nil = false
  /\ (forall z, Namespace.Equal n (any_int z) = false)
  /\ (forall T u, Namespace.Equal n (any_defined T u) = false).
Proof.
  split; [|repeat split].
  - destruct v; cbn [Namespace.Equal]; unfold Namespace.raw;
      rewrite ?bytes_Equal_eq; split;
      try discriminate;
      try (intros [H|[H|[H|H]]]; discriminate).
    + intros H. left. f_equal. symmetry. apply (slice_inj (n := 3)). exact H.
    + intros [H|[H|[H|H]]]; inversion H; reflexivity.
    + intros H. right. left. f_equal. symmetry. apply (slice_inj (n := 3)). exact H.
    + intros [H|[H|[H|H]]]; inversion H; reflexivity.
    + intros H. right. right. left. f_equal. symmetry. exact H.
    + intros [H|[H|[H|H]]]; inversion H; reflexivity.
    + intros H. right. right. right. f_equal.
      rewrite <- (string_of_list_byte_of_string v). unfold Namespace.String.
      f_equal. symmetry. exact H.
    + intros [H|[H|[H|H]]]; inversion H. unfold Namespace.String.
      now rewrite list_byte_of_string_of_list_byte.
  - intros b Hb. cbn [Namespace.Equal].
    destruct (bytes_Equal (Namespace.raw n) b) eqn:E; [|reflexivity].
    apply bytes_Equal_eq in E. subst b. exfalso. apply Hb.
    apply (slice_length (n := 3)).
  - intros s Hs. cbn [Namespace.Equal].
    destruct (bytes_Equal (Namespace.raw n) (list_byte_of_string s)) eqn:E; [|reflexivity].
    apply bytes_Equal_eq in E. exfalso. apply Hs.
    rewrite <- list_byte_of_string_length, <- E. apply (slice_length (n := 3)).
Qed.

Lemma Namespace_Equal_spec_witness :
  Namespace.Equal sample_ns (any_string "bla") = true
  /\ Namespace.Equal sample_ns (any_bytes (list_byte_of_string "blah")) = false
  /\ Namespace.Equal sample_ns (any_string "bl") = false.
Proof.
  destruct (Namespace_Equal_spec sample_ns (any_string "bla")) as (Hiff & Hb & Hs & _).
  split; [|split].
  - apply Hiff. right. right. right. reflexivity.
  - apply Hb. cbn. lia.
  - apply Hs. cbn. lia.
Defined.

(** C9: [NewNamespace] succeeds exactly on the strings of 3 bytes; the
    namespace it then builds has the bytes of the input as [Bytes] and the
    input as [String]; on every other string it fails with the sentinel
    [errNamespaceSize]. *)
Theorem NewNamespace_spec (v : string) :
  (snd (NewNamespace v) = None <-> String.length v = 3%nat)
  /\ (String.length v = 3%nat ->
      Namespace.Bytes (fst (NewNamespace v)) = list_byte_of_string v
      /\ Namespace.String (fst (NewNamespace v)) = v)
  /\ (String.length v <> 3%nat ->
      NewNamespace v = (zero nsLength, Some errNamespaceSize)).
Proof.
  assert (Hok : String.length v = 3%nat ->
                Namespace.Bytes (fst (NewNamespace v)) = list_byte_of_string v).
  { intros H. rewrite NewNamespace_ok by exact H. cbn [fst].
    rewrite Namespace_Bytes_slice. apply (slice_copy (n := 3)).
    now rewrite list_byte_of_string_length. }
  split; [|split].
  - split.
    + intros H. destruct (Nat.eq_dec (String.length v) 3) as [E|E]; [exact E|].
      rewrite NewNamespace_bad in H by exact E. discriminate.
    + intros H. now rewrite NewNamespace_ok.
  - intros H. split; [now apply Hok|].
    unfold Namespace.String. change (Namespace.Append ?n []) with (Namespace.Bytes n).
    rewrite Hok by exact H. apply string_of_list_byte_of_string.
  - apply NewNamespace_bad.
Qed.

Lemma NewNamespace_spec_witness :
  (Namespace.Bytes (fst (NewNamespace "bla")) = list_byte_of_string "bla"
   /\ Namespace.String (fst (NewNamespace "bla")) = "bla"%string)
  /\ NewNamespace "too-long" = (zero nsLength, Some errNamespaceSize).
Proof.
  split.
  - apply (proj1 (proj2 (NewNamespace_spec "bla"))). reflexivity.
  - apply (proj2 (proj2 (NewNamespace_spec "too-long"))). cbn. lia.
Defined.

(** C10: the tag of the reserved namespace [Unknown] is the three
    characters [unk]; every identifier decoded from a bare 20-byte or
    27-character form has a string form that starts with [unk]; and [Nil]
    is the namespace [unk] with the all-zero KSUID. *)
Theorem Unknown_is_unk :
  Namespace.Bytes Unknown = list_byte_of_string "unk"
  /\ Namespace.String Unknown = "unk"%string
  /\ (forall (b : bytes) (id : ID),
      List.length b = 20%nat -> FromBytes b = (id, None) ->
      HasPrefix (ID.String id) "unk")
  /\ (forall (s : string) (id : ID),
      String.length s = 27%nat -> Parse s = (id, None) ->
      HasPrefix (ID.String id) "unk")
  /\ Nil = {| ns := ("u", ("n", ("k", tt)))%byte; ksuid := zero 20 |}.
Proof.
  split; [reflexivity|]. split; [reflexivity|].
  assert (Hpre : forall id, ns id = Unknown -> HasPrefix (ID.String id) "unk").
  { intros id H. exists (ksuid.String (ksuid id)).
    now rewrite ID_String_split, H, Unknown_String. }
  split; [|split; [|reflexivity]].
  - intros b id Hb Hid. apply Hpre. apply (bare_bytes_Unknown b); [lia | exact Hid].
  - intros s id Hs Hid. apply Hpre. apply (bare_string_Unknown s); assumption.
Qed.

Lemma Unknown_is_unk_witness :
  HasPrefix (ID.String (fst (FromBytes sample_ksuid_bytes))) "unk"
  /\ HasPrefix (ID.String (fst (Parse sample_ksuid_string))) "unk".
Proof.
  destruct Unknown_is_unk as (_ & _ & HB & HS & _).
  split.
  - apply (HB sample_ksuid_bytes); reflexivity.
  - apply (HS sample_ksuid_string); [reflexivity | vm_compute; reflexivity].
Defined.

(** ** Further facts about the codec *)

Section MoreCodecFacts.

Lemma Uint32_PutUint32 (v : Z) :
  0 <= v < 4294967296 -> ksuid.Uint32 (ksuid.PutUint32 v) = v.
Proof.
  intros Hv. unfold ksuid.PutUint32. rewrite Uint32_value, !byte_val_uint8.
  rewrite !Z.shiftr_div_pow2 by lia.
  change (2 ^ 24) with 16777216. change (2 ^ 16) with 65536. change (2 ^ 8) with 256.
  Z.div_mod_to_equations. lia.
Qed.

Lemma PutUint32_length (v : Z) : List.length (ksuid.PutUint32 v) = 4%nat.
Proof. reflexivity. Qed.

(** The words of the KSUID made of the bytes of five words are those words. *)
Lemma words_of_PutUint32 (ls : list Z) :
  List.length ls = 5%nat -> digits 4294967296 ls ->
  words (copy (zero ksuid.byteLength) (flat_map ksuid.PutUint32 ls)) = ls.
Proof.
  intros Hlen Hd.
  do 5 (destruct ls as [|? ls]; [discriminate|]). destruct ls; [|discriminate].
  unfold digits in Hd.
  repeat match goal with
         | H : Forall _ (_ :: _) |- _ => inversion H; subst; clear H
         end.
  unfold words, sub.
  cbn [flat_map app ksuid.PutUint32 copy slice fst snd skipn firstn Nat.sub Nat.add
       ksuid.byteLength ksuid.timestampLengthInBytes ksuid.payloadLengthInBytes zero].
  repeat match goal with
         | |- context [ksuid.Uint32 [uint8 (Z.shiftr ?v 24); _; _; _]] =>
             change [uint8 (Z.shiftr v 24); uint8 (Z.shiftr v 16); uint8 (Z.shiftr v 8); uint8 v]
               with (ksuid.PutUint32 v);
             rewrite (Uint32_PutUint32 v) by assumption
         end.
  reflexivity.
Qed.

Lemma alphabet_char (c : byte) :
  In c ksuid.base62Characters ->
  0 <= byte_val (ksuid.base62Value c) < 62
  /\ char62 (byte_val (ksuid.base62Value c)) = c.
Proof.
  intros Hc.
  assert (H : forallb (fun c => (byte_val (ksuid.base62Value c) <? 62)
                                && Byte.eqb (char62 (byte_val (ksuid.base62Value c))) c)
                ksuid.base62Characters = true) by (vm_compute; reflexivity).
  rewrite forallb_forall in H. apply H in Hc.
  apply andb_prop in Hc as [H1 H2].
  apply Z.ltb_lt in H1. apply Byte.byte_dec_bl in H2.
  pose proof (byte_val_range (ksuid.base62Value c)). split; [lia | exact H2].
Qed.

Lemma alphanumeric_In (c : byte) :
  alphanumeric c = true -> In c ksuid.base62Characters.
Proof.
  unfold alphanumeric. rewrite existsb_exists. intros (x & Hx & E).
  apply Byte.byte_dec_bl in E. now subst.
Qed.

Lemma canonical_digits (l : bytes) :
  forallb alphanumeric l = true ->
  digits 62 (map (fun c => byte_val (ksuid.base62Value c)) l)
  /\ map char62 (map (fun c => byte_val (ksuid.base62Value c)) l) = l.
Proof.
  induction l as [|c l IH]; [split; [constructor | reflexivity]|].
  cbn [forallb]. intros H. apply andb_prop in H as [Hc Hl].
  destruct (IH Hl) as [IH1 IH2].
  destruct (alphabet_char c (alphanumeric_In c Hc)) as [Hr Hch]. cbn [map]. split.
  - constructor; assumption.
  - now rewrite Hch, IH2.
Qed.

(** The decoder's outer loop reports a short buffer when the number does
    not fit the [m] words left. *)
Lemma decodeLoop_overflow (m : nat) :
  forall (dst : bytes) (bp : list Z) (tail : bytes),
    digits 62 bp -> 4294967296 ^ Z.of_nat m <= val 62 bp ->
    snd (ksuid.decodeLoop dst (4 * m) bp tail) = Some ksuid_errShortBuffer.
Proof.
  induction m as [|m IH]; intros dst bp tail Hbp Hv.
  - destruct bp as [|c bp]; [cbn in Hv; lia | reflexivity].
  - assert (Hp : 0 < 4294967296 ^ Z.of_nat (S m)) by (apply Z.pow_pos_nonneg; lia).
    destruct bp as [|c bp]; [cbn in Hv; lia|].
    replace (4 * S m)%nat with (S (S (S (S (4 * m))))) by lia.
    cbn [ksuid.decodeLoop].
    destruct (ksuid.divide 62 4294967296 (fun d => d mod 256) (c :: bp) [] 0)
      as [q r] eqn:E.
    apply (divide_top 62 4294967296 (fun d => d mod 256)) in E; try lia; try exact Hbp.
    2:{ intros d Hd. apply Z.mod_small. lia. }
    destruct E as (Hq & Hqn & Hr & Heq).
    rewrite Nat2Z.inj_succ, Z.pow_succ_r in Hv by lia.
    apply IH; [exact Hq | lia].
Qed.

(** On success the decoder's outer loop has filled the buffer. *)
Lemma decodeLoop_length (n : nat) :
  forall (dst : bytes) (bp : list Z) (tail out : bytes),
    (n <= 20)%nat -> ksuid.decodeLoop dst n bp tail = (out, None) ->
    List.length out = (n + List.length tail)%nat.
Proof.
  induction n as [n IH] using lt_wf_ind. intros dst bp tail out Hn E.
  destruct bp as [|c bp].
  - rewrite decodeLoop_nil in E. injection E as <-.
    rewrite length_app, length_firstn. cbn [List.length]. lia.
  - do 4 (destruct n as [|n]; [cbn in E; discriminate|]).
    cbn [ksuid.decodeLoop] in E.
    destruct (ksuid.divide 62 4294967296 (fun d => d mod 256) (c :: bp) [] 0) as [q r].
    apply IH in E; [|lia|lia]. rewrite E, length_app, PutUint32_length. lia.
Qed.

Lemma fastDecodeBase62_length (src : array 27) (out : bytes) :
  ksuid.fastDecodeBase62 (slice (zero ksuid.byteLength)) src = (out, None) ->
  List.length out = 20%nat.
Proof.
  unfold ksuid.fastDecodeBase62. rewrite slice_length.
  change ksuid.byteLength with 20%nat. intros E.
  apply decodeLoop_length in E; [|lia]. rewrite E. reflexivity.
Qed.

(** The errors of [ksuid.Parse]: the size error off length 27, the value
    error at length 27. *)
Lemma ksuid_Parse_cases (t : string) :
  (String.length t <> 27%nat /\ ksuid.Parse t = (ksuid.Nil, Some ksuid_errStrSize))
  \/ (String.length t = 27%nat /\ ksuid.Parse t = (ksuid.Nil, Some ksuid_errStrValue))
  \/ (String.length t = 27%nat /\ exists k, ksuid.Parse t = (k, None)).
Proof.
  unfold ksuid.Parse. change ksuid.stringEncodedLength with 27%nat.
  destruct (String.length t =? 27)%nat eqn:El; cbn [negb].
  - apply Nat.eqb_eq in El. right.
    destruct (ksuid.fastDecodeBase62 _ _) as [out [e|]] eqn:Ed.
    + left. split; [exact El | reflexivity].
    + right. split; [exact El|]. apply fastDecodeBase62_length in Ed.
      unfold ksuid.FromBytes. rewrite Ed. cbn [Nat.eqb ksuid.byteLength negb].
      eexists. reflexivity.
  - apply Nat.eqb_neq in El. left. split; [exact El | reflexivity].
Qed.

End MoreCodecFacts.

Section CanonicalStrings.

Lemma flat_map_PutUint32_length (ls : list Z) :
  List.length (flat_map ksuid.PutUint32 ls) = (4 * List.length ls)%nat.
Proof.
  induction ls as [|v ls IH]; [reflexivity|].
  cbn [flat_map]. rewrite length_app, IH, PutUint32_length. cbn [List.length]. lia.
Qed.

(** [ksuid.Parse] on a 27-character string of the alphabet: it accepts
    exactly the numbers below [2 ^ 160], and the KSUID it returns has the
    string it was parsed from as its string form. *)
Lemma ksuid_Parse_canonical (s : string) :
  String.length s = 27%nat -> canonical s ->
  (base62_number s < 2 ^ 160 ->
   exists k, ksuid.Parse s = (k, None)
             /\ val 4294967296 (words k) = base62_number s
             /\ ksuid.String k = s)
  /\ (2 ^ 160 <= base62_number s ->
      ksuid.Parse s = (ksuid.Nil, Some ksuid_errStrValue)).
Proof.
  intros Hlen Hcan. unfold canonical in Hcan.
  destruct (canonical_digits _ Hcan) as [Hds Hchars].
  unfold base62_number.
  set (ds := map (fun c => byte_val (ksuid.base62Value c)) (list_byte_of_string s)) in *.
  assert (Hsrc : slice (n := 27) (copy (zero ksuid.stringEncodedLength) (list_byte_of_string s))
                 = list_byte_of_string s).
  { apply (slice_copy (n := 27)). now rewrite list_byte_of_string_length. }
  assert (Hdl : List.length ds = 27%nat).
  { unfold ds. now rewrite length_map, list_byte_of_string_length. }
  unfold ksuid.Parse, ksuid.fastDecodeBase62. cbv zeta.
  rewrite Hsrc, Hlen, slice_length. fold ds.
  change (27 =? ksuid.stringEncodedLength)%nat with true. cbn [negb].
  change (ksuid.decodeLoop ?d ksuid.byteLength ds [])
    with (ksuid.decodeLoop d (4 * 5) ds []).
  split.
  - intros Hv.
    destruct (decodeLoop_spec 5 (slice (zero ksuid.byteLength)) ds [])
      as (ls & Hl1 & Hl2 & Hl3 & Hl4); auto.
    { left. lia. }
    rewrite Hl4, app_nil_r.
    assert (H20 : List.length (flat_map ksuid.PutUint32 ls) = 20%nat)
      by (rewrite flat_map_PutUint32_length, Hl1; reflexivity).
    unfold ksuid.FromBytes. rewrite H20. cbn [Nat.eqb negb ksuid.byteLength].
    eexists. split; [reflexivity|].
    rewrite (words_of_PutUint32 ls Hl1 Hl2). split; [exact Hl3|].
    destruct (Append_spec (copy (zero ksuid.byteLength) (flat_map ksuid.PutUint32 ls)) [])
      as (ds' & Hd1 & Hd2 & Hd3 & Hd4).
    rewrite (words_of_PutUint32 ls Hl1 Hl2) in Hd3.
    assert (ds' = ds) as ->.
    { apply (val_inj 62 B62_gt_1); auto; congruence. }
    unfold ksuid.String. rewrite Hd4. cbn [app]. rewrite Hchars.
    apply string_of_list_byte_of_string.
  - intros Hv.
    pose proof (decodeLoop_overflow 5 (slice (zero ksuid.byteLength)) ds [] Hds Hv) as Ho.
    destruct (ksuid.decodeLoop _ _ ds []) as [out [e|]]; [reflexivity | discriminate].
Qed.

(** A parsed KSUID whose string was canonical prints as that string. *)
Lemma ksuid_String_Parse (s : string) (k : ksuid.KSUID) :
  canonical s -> ksuid.Parse s = (k, None) -> ksuid.String k = s.
Proof.
  intros Hcan Hk.
  destruct (ksuid_Parse_cases s) as [[_ E]|[[_ E]|[Hlen _]]];
    try (rewrite E in Hk; discriminate).
  destruct (ksuid_Parse_canonical s Hlen Hcan) as [Hlt Hge].
  destruct (Z.lt_ge_cases (base62_number s) (2 ^ 160)) as [H|H].
  - destruct (Hlt H) as (k' & E & _ & Hs). rewrite E in Hk. injection Hk as <-. exact Hs.
  - rewrite (Hge H) in Hk. discriminate.
Qed.

End CanonicalStrings.

(** ** Minting *)

Section MintFacts.

(** What [ksuid.NewRandomWithTime] builds when the entropy source delivers
    16 bytes: the big-endian timestamp followed by those bytes. *)
Lemma ksuid_NewRandomWithTime_ok (t : time.Time) (w : World) :
  (16 <= List.length (rander w))%nat ->
  exists k,
    ksuid.NewRandomWithTime t w
    = (k, None, mkWorld (now w) (skipn 16 (rander w))
                  (copy (randBuffer w) (firstn 16 (rander w))))
    /\ slice k = ksuid.PutUint32 (ksuid.timeToCorrectedUTCTimestamp t)
                 ++ firstn 16 (rander w).
Proof.
  destruct w as [nw r buf]. cbn [rander randBuffer now]. intros H.
  do 16 (destruct r as [|? r]; [cbn in H; lia|]).
  eexists. split; reflexivity.
Qed.

(** What it returns when the source runs dry: the nil KSUID and the
    reader's error. *)
Lemma ksuid_NewRandomWithTime_short (t : time.Time) (w : World) :
  (List.length (rander w) < 16)%nat ->
  exists e w',
    ksuid.NewRandomWithTime t w = (ksuid.Nil, Some e, w')
    /\ (e = io_EOF \/ e = io_ErrUnexpectedEOF)
    /\ rander w' = [].
Proof.
  destruct w as [nw r buf]. cbn [rander randBuffer now]. intros H.
  do 16 (destruct r as [|? r];
         [eexists; eexists; split; [reflexivity | split; [auto | reflexivity]]|]).
  cbn in H. lia.
Qed.

Lemma Timestamp_range (k : ksuid.KSUID) : 0 <= ksuid.Timestamp k < 4294967296.
Proof.
  do 20 (destruct k as [? k]). apply Uint32_range.
Qed.

Lemma Timestamp_of_slice (k : ksuid.KSUID) (v : Z) (rest : bytes) :
  0 <= v < 4294967296 -> slice k = ksuid.PutUint32 v ++ rest -> ksuid.Timestamp k = v.
Proof.
  intros Hv Hk. unfold ksuid.Timestamp. rewrite Hk.
  rewrite <- (Uint32_PutUint32 v Hv) at 2. reflexivity.
Qed.

End MintFacts.

Lemma sub_app_mid (a m c : bytes) (lo hi : nat) :
  List.length a = lo -> List.length m = (hi - lo)%nat -> sub (a ++ m ++ c) lo hi = m.
Proof.
  unfold sub. intros <- <-.
  assert (Hs : forall (x y : bytes), skipn (List.length x) (x ++ y) = y)
    by (induction x as [|? x IH]; intros y; [reflexivity | apply IH]).
  assert (Hf : forall (x y : bytes), firstn (List.length x) (x ++ y) = x)
    by (induction x as [|? x IH]; intros y; [reflexivity | cbn; now rewrite IH]).
  now rewrite Hs, Hf.
Qed.

Lemma mint_inversion (n : Namespace) (t : time.Time) (w w' : World) (id : ID) :
  NewRandomWithTime n t w = (id, None, w') ->
  (16 <= List.length (rander w))%nat
  /\ ns id = n
  /\ slice (ksuid id) = ksuid.PutUint32 (ksuid.timeToCorrectedUTCTimestamp t)
                        ++ firstn 16 (rander w)
  /\ w' = mkWorld (now w) (skipn 16 (rander w))
            (copy (randBuffer w) (firstn 16 (rander w))).
Proof.
  unfold NewRandomWithTime. intros E.
  destruct (le_lt_dec 16 (List.length (rander w))) as [H|H].
  - destruct (ksuid_NewRandomWithTime_ok t w H) as (k & Ek & Hk).
    rewrite Ek in E. inversion E; subst. cbn [ns ksuid]. auto.
  - destruct (ksuid_NewRandomWithTime_short t w H) as (e & w1 & Ek & _).
    rewrite Ek in E. discriminate.
Qed.

Lemma New_inversion (n : Namespace) (w w' : World) (id : ID) :
  New n w = (Return id, w') -> NewRandomWithTime n (now w) w = (id, None, w').
Proof.
  unfold New, NewRandom.
  destruct (NewRandomWithTime n (now w) w) as [[id' [e|]] w1]; returned.
Qed.

(** ** Further properties of the code *)

(** X1: [ID.Equal] holds exactly when the namespace bytes and the KSUID
    bytes both match, that is when the two identifiers are the same value;
    it is reflexive and symmetric, and identifiers of different namespaces
    are never equal, whatever their KSUIDs. *)
Theorem ID_Equal_spec (i j : ID) :
  (ID.Equal i j = true <->
   Namespace.Bytes (ns i) = Namespace.Bytes (ns j)
   /\ ksuid.Bytes (ksuid i) = ksuid.Bytes (ksuid j))
  /\ (ID.Equal i j = true <-> i = j)
  /\ ID.Equal i i = true
  /\ ID.Equal i j = ID.Equal j i
  /\ (ns i <> ns j -> ID.Equal i j = false).
Proof.
  assert (Hiff : forall a b, ID.Equal a b = true <-> a = b) by apply ID_Equal_eq.
  split; [|split; [apply Hiff | split; [now apply Hiff | split]]].
  - unfold ID.Equal, Namespace.Equal, Namespace.raw.
    rewrite andb_true_iff, !bytes_Equal_eq. reflexivity.
  - destruct (ID.Equal i j) eqn:E1, (ID.Equal j i) eqn:E2; try reflexivity.
    + apply Hiff in E1. subst. rewrite (proj2 (Hiff j j) eq_refl) in E2. discriminate.
    + apply Hiff in E2. subst. rewrite (proj2 (Hiff i i) eq_refl) in E1. discriminate.
  - intros Hns. destruct (ID.Equal i j) eqn:E; [|reflexivity].
    apply Hiff in E. subst. contradiction.
Qed.

Lemma ID_Equal_spec_witness :
  ID.Equal sample_id {| ns := Unknown; ksuid := ksuid sample_id |} = false.
Proof.
  refine (proj2 (proj2 (proj2 (proj2
            (ID_Equal_spec sample_id {| ns := Unknown; ksuid := ksuid sample_id |})))) _).
  vm_compute. discriminate.
Defined.

(** X2: [ID.IsNil] holds exactly for [Nil]; it is the comparison with
    [Nil] by [ID.Equal]; an identifier whose namespace is not [Unknown] is
    never nil, and neither is the zero value of [ID]. *)
Theorem IsNil_spec (i : ID) :
  (ID.IsNil i = true <-> i = Nil)
  /\ ID.IsNil i = ID.Equal i Nil
  /\ (ns i <> Unknown -> ID.IsNil i = false)
  /\ ID.IsNil zeroID = false.
Proof.
  assert (He : ID.IsNil i = ID.Equal i Nil) by reflexivity.
  split; [rewrite He; apply ID_Equal_eq|].
  split; [exact He|]. split; [|reflexivity].
  intros Hns. rewrite He. destruct (ID.Equal i Nil) eqn:E; [|reflexivity].
  apply ID_Equal_eq in E. subst. contradiction.
Qed.

Lemma IsNil_spec_witness : ID.IsNil sample_id = false.
Proof.
  refine (proj1 (proj2 (proj2 (IsNil_spec sample_id))) _).
  vm_compute. discriminate.
Defined.

(** X3: [MarshalJSON] never fails and produces the 30 characters of the
    string form between two quotes, with no escaping; when the JSON decoder
    reads that text back as the string form, [UnmarshalJSON] restores the
    identifier, [Nil] included, whatever the receiver held. *)
Theorem JSON_round_trip (json_Unmarshal : json.StringDecoder) (i id : ID) :
  json_Unmarshal (fst (ID.MarshalJSON id)) EmptyString = (ID.String id, None) ->
  ID.MarshalJSON id = (x22 :: list_byte_of_string (ID.String id) ++ [x22], None)
  /\ List.length (fst (ID.MarshalJSON id)) = 32%nat
  /\ ID.UnmarshalJSON json_Unmarshal i (fst (ID.MarshalJSON id)) = (id, None).
Proof.
  intros HJ.
  assert (Hm : ID.MarshalJSON id
               = (x22 :: list_byte_of_string (ID.String id) ++ [x22], None)).
  { unfold ID.MarshalJSON, ID.String. rewrite list_byte_of_string_of_list_byte.
    rewrite (ID_Append_app id ([] ++ [x22])), (ID_Append_app id []). reflexivity. }
  split; [exact Hm|]. split.
  - rewrite Hm. cbn [fst List.length]. rewrite length_app, list_byte_of_string_length.
    rewrite ID_String_length. reflexivity.
  - unfold ID.UnmarshalJSON. rewrite HJ.
    destruct (String.eqb (ID.String id) EmptyString) eqn:E.
    + apply String.eqb_eq in E. pose proof (ID_String_length id) as Hl.
      rewrite E in Hl. discriminate.
    + now rewrite Parse_String.
Qed.

Lemma JSON_round_trip_witness :
  ID.MarshalJSON sample_id
  = (x22 :: list_byte_of_string (ID.String sample_id) ++ [x22], None)
  /\ List.length (fst (ID.MarshalJSON sample_id)) = 32%nat
  /\ ID.UnmarshalJSON json.Unmarshal Nil (fst (ID.MarshalJSON sample_id)) = (sample_id, None).
Proof.
  apply (JSON_round_trip json.Unmarshal Nil sample_id). vm_compute. reflexivity.
Defined.

(** X4: the string form of an identifier returned by [New] has 30
    characters, starts with the string of the namespace it was minted with
    and continues with the 27 characters of its KSUID. *)
Theorem New_String_prefix (n : Namespace) (w w' : World) (id : ID) :
  New n w = (Return id, w') ->
  String.length (ID.String id) = 30%nat
  /\ HasPrefix (ID.String id) (Namespace.String n)
  /\ ID.String id = (Namespace.String n ++ ksuid.String (ID.KSUID id))%string
  /\ String.length (ksuid.String (ID.KSUID id)) = 27%nat.
Proof.
  intros H. apply New_inversion, mint_inversion in H. destruct H as (_ & Hns & _).
  assert (Hs : ID.String id = (Namespace.String n ++ ksuid.String (ID.KSUID id))%string)
    by (rewrite ID_String_split, Hns; reflexivity).
  split; [apply ID_String_length|].
  split; [exists (ksuid.String (ID.KSUID id)); exact Hs|].
  split; [exact Hs | apply ksuid_String_length].
Qed.

Lemma New_String_prefix_witness :
  String.length (ID.String sample_id) = 30%nat
  /\ HasPrefix (ID.String sample_id) (Namespace.String sample_ns)
  /\ ID.String sample_id
     = (Namespace.String sample_ns ++ ksuid.String (ID.KSUID sample_id))%string
  /\ String.length (ksuid.String (ID.KSUID sample_id)) = 27%nat.
Proof.
  apply (New_String_prefix sample_ns
           {| now := sample_time; rander := rander sample_world;
              randBuffer := randBuffer sample_world |}
           (snd (New sample_ns
                   {| now := sample_time; rander := rander sample_world;
                      randBuffer := randBuffer sample_world |}))).
  vm_compute. reflexivity.
Defined.

(** X5: the time read back from any identifier is a whole second, within
    the 2^32 seconds that start at the KSUID epoch.  For an identifier
    minted at time [t] it is the second of [t] reduced into that window;
    hence, when the second of [t] lies in the window, it is [t] cut down to
    the second, and it is [t] itself only when [t] has no sub-second
    part. *)
Theorem minted_Time (n : Namespace) (t : time.Time) (w w' : World) (id : ID) :
  NewRandomWithTime n t w = (id, None, w') ->
  ID.Time id = time.FromUnix ((time.Unix t - 1400000000) mod 2 ^ 32 + 1400000000) 0
  /\ (1400000000 <= time.Unix t < 1400000000 + 2 ^ 32 ->
      time.Unix (ID.Time id) = time.Unix t
      /\ ID.Time id = time.mkTime (time.Unix t) 0
      /\ (ID.Time id = t <-> time.Nanosecond t = 0))
  /\ (forall i : ID,
        1400000000 <= time.Unix (ID.Time i) < 1400000000 + 2 ^ 32
        /\ time.Nanosecond (ID.Time i) = 0).
Proof.
  intros H. apply mint_inversion in H. destruct H as (_ & _ & Hk & _).
  assert (Hts : 0 <= ksuid.timeToCorrectedUTCTimestamp t < 4294967296)
    by (apply Z.mod_pos_bound; reflexivity).
  assert (Hf : forall v, time.FromUnix v 0 = time.mkTime v 0).
  { intros v. unfold time.FromUnix. f_equal. cbn. lia. }
  assert (Ht : ID.Time id
               = time.FromUnix ((time.Unix t - 1400000000) mod 2 ^ 32 + 1400000000) 0).
  { unfold ID.Time, ksuid.Time. rewrite (Timestamp_of_slice _ _ _ Hts Hk). reflexivity. }
  split; [exact Ht|]. split.
  - intros Hr.
    assert (Hm : ID.Time id = time.mkTime (time.Unix t) 0).
    { rewrite Ht, Hf. f_equal. rewrite Z.mod_small; lia. }
    split; [rewrite Hm; reflexivity|]. split; [exact Hm|].
    rewrite Hm. destruct t as [ts tn]. cbn [time.Unix time.Nanosecond time.sec time.nsec].
    split; intros E; [inversion E; reflexivity | now subst].
  - intros i. unfold ID.Time, ksuid.Time. rewrite Hf.
    cbn [time.Unix time.Nanosecond time.sec time.nsec]. unfold ksuid.epochStamp.
    pose proof (Timestamp_range (ksuid i)).
    change (2 ^ 32) with 4294967296. split; [lia | reflexivity].
Qed.

Lemma minted_Time_witness :
  time.Unix (ID.Time sample_id) = time.Unix sample_time
  /\ ID.Time sample_id = time.mkTime (time.Unix sample_time) 0
  /\ (ID.Time sample_id = sample_time <-> time.Nanosecond sample_time = 0).
Proof.
  refine (proj1 (proj2 (minted_Time sample_ns sample_time sample_world
                          (snd (NewRandomWithTime sample_ns sample_time sample_world))
                          sample_id _)) _).
  - vm_compute. reflexivity.
  - unfold sample_time. cbn [time.Unix time.sec]. lia.
Defined.

(** X6: minting consumes 16 bytes of entropy.  When the source holds them,
    [NewRandomWithTime] succeeds with an identifier of the given namespace
    and [New] returns an identifier; when it holds fewer,
    [NewRandomWithTime] returns the zero identifier with the reader's
    end-of-file error, and [New] panics. *)
Theorem minting_outcomes (n : Namespace) (t : time.Time) (w : World) :
  ((16 <= List.length (rander w))%nat ->
   (exists id w', NewRandomWithTime n t w = (id, None, w')
                  /\ ID.Namespace id = n
                  /\ rander w' = skipn 16 (rander w))
   /\ (exists id w', New n w = (Return id, w') /\ ID.Namespace id = n))
  /\ ((List.length (rander w) < 16)%nat ->
      (exists e w', NewRandomWithTime n t w = (zeroID, Some e, w')
                    /\ (e = io_EOF \/ e = io_ErrUnexpectedEOF))
      /\ fst (New n w) = Panic).
Proof.
  split; intros H.
  - assert (Hgen : forall t0, exists id w',
               NewRandomWithTime n t0 w = (id, None, w')
               /\ ID.Namespace id = n /\ rander w' = skipn 16 (rander w)).
    { intros t0. destruct (ksuid_NewRandomWithTime_ok t0 w H) as (k & Ek & _).
      unfold NewRandomWithTime. rewrite Ek. eexists. eexists.
      split; [reflexivity | split; reflexivity]. }
    split; [apply Hgen|].
    destruct (Hgen (now w)) as (id & w' & E & Hn & _).
    exists id, w'. unfold New, NewRandom. rewrite E. split; [reflexivity | exact Hn].
  - assert (Hgen : forall t0, exists e w',
               NewRandomWithTime n t0 w = (zeroID, Some e, w')
               /\ (e = io_EOF \/ e = io_ErrUnexpectedEOF)).
    { intros t0. destruct (ksuid_NewRandomWithTime_short t0 w H) as (e & w' & Ek & He & _).
      unfold NewRandomWithTime. rewrite Ek. exists e, w'. split; [reflexivity | exact He]. }
    split; [apply Hgen|].
    destruct (Hgen (now w)) as (e & w' & E & _).
    unfold New, NewRandom. rewrite E. reflexivity.
Qed.

Lemma minting_outcomes_witness :
  (exists id w', New sample_ns sample_world = (Return id, w')
                 /\ ID.Namespace id = sample_ns)
  /\ fst (New sample_ns {| now := time.mkTime 0 0; rander := [x2a; x2a]; randBuffer := zero 16 |}) = Panic.
Proof.
  split.
  - refine (proj2 (proj1 (minting_outcomes sample_ns sample_time sample_world) _)).
    vm_compute. repeat constructor.
  - refine (proj2 (proj2 (minting_outcomes sample_ns sample_time
                       {| now := time.mkTime 0 0; rander := [x2a; x2a]; randBuffer := zero 16 |}) _)).
    vm_compute. repeat constructor.
Defined.

(** X7: the 23 bytes of a minted identifier are laid out as the source
    documents: the 3 namespace bytes, the timestamp since the KSUID epoch
    as a big-endian 32-bit word, then the 16 bytes drawn from the entropy
    source. *)
Theorem minted_layout (n : Namespace) (t : time.Time) (w w' : World) (id : ID) :
  NewRandomWithTime n t w = (id, None, w') ->
  ID.Bytes id
  = Namespace.Bytes n
    ++ ksuid.PutUint32 ((time.Unix t - 1400000000) mod 2 ^ 32)
    ++ firstn 16 (rander w)
  /\ sub (ID.Bytes id) 0 3 = Namespace.Bytes n
  /\ ksuid.Uint32 (sub (ID.Bytes id) 3 7) = (time.Unix t - 1400000000) mod 2 ^ 32
  /\ sub (ID.Bytes id) 7 23 = firstn 16 (rander w).
Proof.
  intros H. apply mint_inversion in H. destruct H as (Hlen & Hns & Hk & _).
  assert (Hb : ID.Bytes id
               = Namespace.Bytes n ++ ksuid.PutUint32 ((time.Unix t - 1400000000) mod 2 ^ 32)
                 ++ firstn 16 (rander w)).
  { rewrite ID_Bytes_split, Hns, Hk. reflexivity. }
  split; [exact Hb|]. rewrite Hb.
  assert (Hn3 : List.length (Namespace.Bytes n) = 3%nat) by apply Namespace_Bytes_length.
  assert (Hr16 : List.length (firstn 16 (rander w)) = 16%nat)
    by (rewrite length_firstn; lia).
  split; [|split].
  - apply (sub_app_mid [] (Namespace.Bytes n)); [reflexivity | exact Hn3].
  - rewrite (sub_app_mid (Namespace.Bytes n) (ksuid.PutUint32 _));
      [| exact Hn3 | reflexivity].
    apply Uint32_PutUint32. apply Z.mod_pos_bound. reflexivity.
  - rewrite app_assoc, <- (app_nil_r (firstn 16 (rander w))) at 1.
    apply sub_app_mid; [rewrite length_app, Hn3; reflexivity | exact Hr16].
Qed.

Lemma minted_layout_witness :
  ID.Bytes sample_id
  = Namespace.Bytes sample_ns
    ++ ksuid.PutUint32 ((time.Unix sample_time - 1400000000) mod 2 ^ 32)
    ++ firstn 16 (rander sample_world)
  /\ sub (ID.Bytes sample_id) 0 3 = Namespace.Bytes sample_ns
  /\ ksuid.Uint32 (sub (ID.Bytes sample_id) 3 7)
     = (time.Unix sample_time - 1400000000) mod 2 ^ 32
  /\ sub (ID.Bytes sample_id) 7 23 = firstn 16 (rander sample_world).
Proof.
  apply (minted_layout sample_ns sample_time sample_world
           (snd (NewRandomWithTime sample_ns sample_time sample_world))).
  vm_compute. reflexivity.
Defined.

(** X8: [FromBytes] decides by length alone.  A 23-byte buffer is always
    accepted, its first 3 bytes taken verbatim as the namespace, and
    encodes back to itself; a 20-byte buffer is always accepted as a bare
    KSUID under [Unknown]; a buffer of any other length is rejected with
    the size error of [ksuid] and the zero identifier. *)
Theorem FromBytes_by_length (b : bytes) :
  (List.length b = 23%nat ->
   exists id, FromBytes b = (id, None)
              /\ ID.Bytes id = b
              /\ Namespace.Bytes (ID.Namespace id) = sub b 0 3
              /\ ksuid.Bytes (ID.KSUID id) = skipn 3 b)
  /\ (List.length b = 20%nat ->
      exists id, FromBytes b = (id, None)
                 /\ ID.Namespace id = Unknown
                 /\ ksuid.Bytes (ID.KSUID id) = b
                 /\ ID.Bytes id = list_byte_of_string "unk" ++ b)
  /\ (List.length b <> 23%nat -> List.length b <> 20%nat ->
      FromBytes b = (zeroID, Some ksuid_errSize)).
Proof.
  split; [|split].
  - intros H. unfold FromBytes. rewrite H. cbn [Nat.eqb byteLength].
    assert (H20 : List.length (skipn nsLength b) = 20%nat)
      by (rewrite length_skipn, H; reflexivity).
    assert (H3 : List.length (sub b 0 nsLength) = 3%nat)
      by (unfold sub; rewrite length_firstn, length_skipn, H; reflexivity).
    destruct (ksuid_FromBytes_accepts _ H20) as (v & Ev & Hv).
    rewrite Ev. eexists. split; [reflexivity|].
    assert (Hn : Namespace.Bytes (copy (ns zeroID) (sub b 0 nsLength)) = sub b 0 3).
    { rewrite Namespace_Bytes_slice. apply (slice_copy (n := 3)). exact H3. }
    split; [|split; [exact Hn | exact Hv]].
    rewrite ID_Bytes_split. cbn [ns ksuid]. rewrite Hn. unfold ksuid.Bytes in Hv.
    rewrite Hv. unfold sub. cbn [skipn Nat.sub]. apply firstn_skipn.
  - intros H. unfold FromBytes. rewrite H. cbn [Nat.eqb byteLength].
    destruct (ksuid_FromBytes_accepts _ H) as (v & Ev & Hv).
    rewrite Ev. eexists. split; [reflexivity|]. split; [reflexivity|].
    split; [exact Hv|]. rewrite ID_Bytes_split. cbn [ns ksuid]. now rewrite Hv.
  - intros H23 H20. unfold FromBytes, ksuid.FromBytes.
    apply Nat.eqb_neq in H23, H20.
    change byteLength with 23%nat. change ksuid.byteLength with 20%nat.
    now rewrite H23, H20.
Qed.

Lemma FromBytes_by_length_witness :
  (exists id, FromBytes (ID.Bytes sample_id) = (id, None)
              /\ ID.Bytes id = ID.Bytes sample_id
              /\ Namespace.Bytes (ID.Namespace id) = sub (ID.Bytes sample_id) 0 3
              /\ ksuid.Bytes (ID.KSUID id) = skipn 3 (ID.Bytes sample_id))
  /\ (exists id, FromBytes sample_ksuid_bytes = (id, None)
                 /\ ID.Namespace id = Unknown
                 /\ ksuid.Bytes (ID.KSUID id) = sample_ksuid_bytes
                 /\ ID.Bytes id = list_byte_of_string "unk" ++ sample_ksuid_bytes)
  /\ FromBytes [x01; x02; x03; x04; x05] = (zeroID, Some ksuid_errSize).
Proof.
  split; [|split].
  - refine (proj1 (FromBytes_by_length (ID.Bytes sample_id)) _). reflexivity.
  - refine (proj1 (proj2 (FromBytes_by_length sample_ksuid_bytes)) _). reflexivity.
  - refine (proj2 (proj2 (FromBytes_by_length [x01; x02; x03; x04; x05])) _ _);
      cbn; lia.
Defined.

(** X9: the bare forms are the [unk]-prefixed forms: decoding a 20-byte
    buffer gives what decoding it behind the bytes [unk] gives, and parsing
    a 27-character string gives what parsing it behind [unk] gives, errors
    included. *)
Theorem bare_form_is_unk_prefixed :
  (forall b : bytes, List.length b = 20%nat ->
     FromBytes (list_byte_of_string "unk" ++ b) = FromBytes b)
  /\ (forall s : string, String.length s = 27%nat ->
     Parse ("unk" ++ s) = Parse s).
Proof.
  split.
  - intros b H. destruct (ksuid_FromBytes_accepts b H) as (v & Ev & _).
    unfold FromBytes. change (list_byte_of_string "unk") with ["u"; "n"; "k"]%byte.
    cbn [app List.length]. rewrite H.
    unfold sub. cbn [Nat.eqb byteLength skipn firstn nsLength baseLength Nat.sub].
    rewrite Ev. reflexivity.
  - intros s H. unfold Parse at 2. rewrite H.
    cbn [Nat.eqb stringEncodedLength nsLength byteLength baseLength Nat.sub].
    unfold Parse. rewrite string_length_app, H.
    cbn [String.length Nat.add Nat.eqb negb stringEncodedLength nsLength byteLength
         baseLength Nat.sub].
    rewrite (substring_app_l 3 "unk" s eq_refl), (substring_app_r 3 27 "unk" s eq_refl H).
    rewrite NewNamespace_ok by reflexivity.
    destruct (ksuid.Parse s) as [v [e|]]; reflexivity.
Qed.

Lemma bare_form_is_unk_prefixed_witness :
  FromBytes (list_byte_of_string "unk" ++ sample_ksuid_bytes) = FromBytes sample_ksuid_bytes
  /\ Parse ("unk" ++ sample_ksuid_string) = Parse sample_ksuid_string.
Proof.
  split.
  - refine (proj1 bare_form_is_unk_prefixed sample_ksuid_bytes _). reflexivity.
  - refine (proj2 bare_form_is_unk_prefixed sample_ksuid_string _). reflexivity.
Defined.

Lemma substring_split (n m : nat) (s : string) :
  String.length s = (n + m)%nat -> (substring 0 n s ++ substring n m s)%string = s.
Proof.
  revert s. induction n as [|n IH]; intros s H.
  - cbn [Nat.add] in H. rewrite <- H, substring_all.
    destruct s; reflexivity.
  - destruct s as [|c s]; [discriminate|]. cbn. f_equal. apply IH.
    cbn in H. lia.
Qed.

Lemma Namespace_String_copy (v : string) :
  String.length v = 3%nat ->
  Namespace.String (copy (zero nsLength) (list_byte_of_string v)) = v.
Proof.
  intros H. unfold Namespace.String, Namespace.Append. cbn [app].
  rewrite (slice_copy (n := 3)) by (now rewrite list_byte_of_string_length).
  apply string_of_list_byte_of_string.
Qed.

(** X10: the only errors of [Parse] are its own size error, returned
    exactly for lengths other than 27 and 30, and the value error of
    [ksuid], returned when the 27-character segment does not decode; the
    namespace segment is never a cause of failure. *)
Theorem Parse_errors (s : string) (id : ID) (e : error) :
  Parse s = (id, Some e) ->
  (e = errStringSize /\ String.length s <> 27%nat /\ String.length s <> 30%nat)
  \/ (e = ksuid_errStrValue /\ (String.length s = 27%nat \/ String.length s = 30%nat)).
Proof.
  unfold Parse. change (stringEncodedLength - nsLength)%nat with 27%nat.
  change stringEncodedLength with 30%nat. change nsLength with 3%nat.
  destruct (String.length s =? 27)%nat eqn:E27.
  - apply Nat.eqb_eq in E27.
    destruct (ksuid_Parse_cases s) as [[H _]|[[_ H]|[_ [k H]]]];
      [contradiction | |]; rewrite H; intros E; inversion E; auto.
  - apply Nat.eqb_neq in E27.
    destruct (String.length s =? 30)%nat eqn:E30; cbn [negb].
    + apply Nat.eqb_eq in E30.
      rewrite NewNamespace_ok by (apply substring_length; lia).
      rewrite E30. cbn [Nat.sub].
      destruct (ksuid_Parse_cases (substring 3 27 s)) as [[H _]|[[_ H]|[_ [k H]]]].
      * exfalso. apply H. apply substring_length. lia.
      * rewrite H. intros E; inversion E; auto.
      * rewrite H. intros E; inversion E.
    + apply Nat.eqb_neq in E30. intros E; inversion E; auto.
Qed.

Lemma Parse_errors_witness :
  (errStringSize = errStringSize
   /\ String.length "blah" <> 27%nat /\ String.length "blah" <> 30%nat)
  \/ (errStringSize = ksuid_errStrValue
      /\ (String.length "blah" = 27%nat \/ String.length "blah" = 30%nat)).
Proof.
  apply (Parse_errors "blah" zeroID errStringSize). reflexivity.
Defined.

(** X11: [Parse] keeps the first three bytes of a 30-character string
    verbatim as the namespace; and when the KSUID segment of an accepted
    string is made of characters of the base-62 alphabet, the string form
    of the parsed identifier is the string itself, behind [unk] when the
    string was a bare 27-character one. *)
Theorem String_of_parsed (s : string) (id : ID) :
  Parse s = (id, None) ->
  (String.length s = 30%nat -> Namespace.String (ID.Namespace id) = substring 0 3 s)
  /\ (String.length s = 30%nat -> canonical (substring 3 27 s) -> ID.String id = s)
  /\ (String.length s = 27%nat -> canonical s -> ID.String id = ("unk" ++ s)%string).
Proof.
  intros HP.
  assert (H30 : String.length s = 30%nat ->
                Namespace.String (ns id) = substring 0 3 s
                /\ ksuid.Parse (substring 3 27 s) = (ksuid id, None)).
  { intros H. revert HP. unfold Parse. rewrite H.
    cbn [Nat.eqb negb stringEncodedLength nsLength byteLength baseLength Nat.sub].
    rewrite NewNamespace_ok by (apply substring_length; lia).
    destruct (ksuid.Parse (substring 3 27 s)) as [v [e|]]; intros E; inversion E.
    cbn [ns ksuid]. split; [|reflexivity].
    apply Namespace_String_copy. apply substring_length. lia. }
  split; [intros H; apply (H30 H)|]. split.
  - intros H Hc. destruct (H30 H) as [Hn Hk].
    rewrite ID_String_split, Hn, (ksuid_String_Parse _ _ Hc Hk).
    apply substring_split. exact H.
  - intros H Hc. revert HP. unfold Parse. rewrite H.
    cbn [Nat.eqb stringEncodedLength nsLength byteLength baseLength Nat.sub].
    destruct (ksuid.Parse s) as [v [e|]] eqn:Ek; intros E; inversion E.
    rewrite ID_String_split. cbn [ns ksuid].
    rewrite (ksuid_String_Parse _ _ Hc Ek). reflexivity.
Qed.

Lemma String_of_parsed_witness :
  ID.String (fst (Parse (ID.String sample_id))) = ID.String sample_id
  /\ ID.String (fst (Parse sample_ksuid_string)) = ("unk" ++ sample_ksuid_string)%string.
Proof.
  split.
  - refine (proj1 (proj2 (String_of_parsed (ID.String sample_id)
                            (fst (Parse (ID.String sample_id))) _)) _ _);
      vm_compute; reflexivity.
  - refine (proj2 (proj2 (String_of_parsed sample_ksuid_string
                            (fst (Parse sample_ksuid_string)) _)) _ _);
      vm_compute; reflexivity.
Defined.

(** X12: on a bare 27-character string of the base-62 alphabet, [Parse]
    succeeds exactly when the number the string denotes is below [2 ^ 160]:
    it then returns the KSUID holding that number under [Unknown], and
    otherwise the value error of [ksuid] with the zero identifier. *)
Theorem Parse_accepts_below_2_160 (s : string) :
  String.length s = 27%nat -> canonical s ->
  (base62_number s < 2 ^ 160 ->
   exists id, Parse s = (id, None)
              /\ ID.Namespace id = Unknown
              /\ val 4294967296 (words (ID.KSUID id)) = base62_number s)
  /\ (2 ^ 160 <= base62_number s -> Parse s = (zeroID, Some ksuid_errStrValue)).
Proof.
  intros Hlen Hcan. destruct (ksuid_Parse_canonical s Hlen Hcan) as [Hlt Hge].
  unfold Parse. rewrite Hlen.
  cbn [Nat.eqb stringEncodedLength nsLength byteLength baseLength Nat.sub].
  split; intros H.
  - destruct (Hlt H) as (k & Ek & Hv & _). rewrite Ek.
    eexists. split; [reflexivity|]. split; [reflexivity | exact Hv].
  - now rewrite (Hge H).
Qed.

Lemma Parse_accepts_below_2_160_witness :
  (exists id, Parse "aWgEPTl1tmebfsQzFP4bxwgy80V" = (id, None)
              /\ ID.Namespace id = Unknown
              /\ val 4294967296 (words (ID.KSUID id))
                 = base62_number "aWgEPTl1tmebfsQzFP4bxwgy80V")
  /\ Parse "aWgEPTl1tmebfsQzFP4bxwgy80W" = (zeroID, Some ksuid_errStrValue).
Proof.
  split.
  - refine (proj1 (Parse_accepts_below_2_160 "aWgEPTl1tmebfsQzFP4bxwgy80V" _ _) _);
      vm_compute; reflexivity.
  - refine (proj2 (Parse_accepts_below_2_160 "aWgEPTl1tmebfsQzFP4bxwgy80W" _ _) _);
      vm_compute; try reflexivity. discriminate.
Defined.

(** X13: [ID.Append] and [Namespace.Append] only extend the buffer they
    are given: the buffer is kept as a prefix, [Namespace.Append] adds the
    3 namespace bytes and [ID.Append] the 30 characters of the string form,
    namespace first. *)
Theorem Append_extends (i : ID) (n : Namespace) (b : bytes) :
  ID.Append i b = b ++ list_byte_of_string (ID.String i)
  /\ List.length (ID.Append i b) = (List.length b + 30)%nat
  /\ Namespace.Append n b = b ++ Namespace.Bytes n
  /\ List.length (Namespace.Append n b) = (List.length b + 3)%nat
  /\ ID.Append i b = ksuid.Append (ID.KSUID i) (Namespace.Append (ID.Namespace i) b).
Proof.
  assert (H1 : ID.Append i b = b ++ list_byte_of_string (ID.String i)).
  { unfold ID.String. rewrite list_byte_of_string_of_list_byte.
    rewrite (ID_Append_app i b), (ID_Append_app i []). reflexivity. }
  split; [exact H1|]. split.
  - rewrite H1, length_app, list_byte_of_string_length, ID_String_length. reflexivity.
  - split; [reflexivity|]. split; [|reflexivity].
    unfold Namespace.Append. rewrite length_app, (slice_length (n := 3)). reflexivity.
Qed.

(** X14: [MustNamespace] returns what [NewNamespace] builds on a 3-byte
    string and panics on every other string; every namespace is rebuilt,
    by either constructor, from its own string. *)
Theorem MustNamespace_spec (v : string) (n : Namespace) :
  (String.length v = 3%nat ->
   MustNamespace v = Return (fst (NewNamespace v))
   /\ Namespace.String (fst (NewNamespace v)) = v)
  /\ (String.length v <> 3%nat -> MustNamespace v = Panic)
  /\ NewNamespace (Namespace.String n) = (n, None)
  /\ MustNamespace (Namespace.String n) = Return n.
Proof.
  split; [|split; [|split]].
  - intros H. unfold MustNamespace. rewrite NewNamespace_ok by exact H.
    split; [reflexivity|]. cbn [fst]. now apply Namespace_String_copy.
  - intros H. unfold MustNamespace. now rewrite NewNamespace_bad.
  - apply NewNamespace_String.
  - unfold MustNamespace. now rewrite NewNamespace_String.
Qed.

Lemma MustNamespace_spec_witness :
  (MustNamespace "unk" = Return (fst (NewNamespace "unk"))
   /\ Namespace.String (fst (NewNamespace "unk")) = "unk"%string)
  /\ MustNamespace "too-long" = Panic.
Proof.
  split.
  - refine (proj1 (MustNamespace_spec "unk" sample_ns) _). reflexivity.
  - refine (proj1 (proj2 (MustNamespace_spec "too-long" sample_ns)) _). cbn. lia.
Defined.

(** X15: [UnmarshalJSON] passes errors on unchanged and keeps the receiver
    on every one of them: an error of the JSON decoder is returned as it
    is; a decoded, non-empty string of a length other than 27 and 30 gives
    the size error of [Parse]; any other error of [Parse] is returned as it
    is; and a decoded, non-empty string that [Parse] accepts replaces the
    receiver by the parsed identifier. *)
Theorem UnmarshalJSON_outcomes (json_Unmarshal : json.StringDecoder) (i : ID) (b : bytes) :
  (forall s e, json_Unmarshal b EmptyString = (s, Some e) ->
               ID.UnmarshalJSON json_Unmarshal i b = (i, Some e))
  /\ (forall s, json_Unmarshal b EmptyString = (s, None) ->
                String.length s <> 0%nat -> String.length s <> 27%nat ->
                String.length s <> 30%nat ->
                ID.UnmarshalJSON json_Unmarshal i b = (i, Some errStringSize))
  /\ (forall s id e, json_Unmarshal b EmptyString = (s, None) ->
                     String.length s <> 0%nat -> Parse s = (id, Some e) ->
                     ID.UnmarshalJSON json_Unmarshal i b = (i, Some e))
  /\ (forall s id, json_Unmarshal b EmptyString = (s, None) ->
                   String.length s <> 0%nat -> Parse s = (id, None) ->
                   ID.UnmarshalJSON json_Unmarshal i b = (id, None)).
Proof.
  assert (Hne : forall s, String.length s <> 0%nat -> String.eqb s EmptyString = false).
  { intros s H. destruct s; [contradiction | reflexivity]. }
  unfold ID.UnmarshalJSON. split; [|split; [|split]].
  - intros s e H. now rewrite H.
  - intros s H H0 H27 H30. rewrite H, (Hne s H0).
    unfold Parse. apply Nat.eqb_neq in H27, H30.
    change (stringEncodedLength - nsLength)%nat with 27%nat.
    change stringEncodedLength with 30%nat. now rewrite H27, H30.
  - intros s id e H H0 HP. now rewrite H, (Hne s H0), HP.
  - intros s id H H0 HP. now rewrite H, (Hne s H0), HP.
Qed.

Lemma UnmarshalJSON_outcomes_witness :
  ID.UnmarshalJSON json.Unmarshal sample_id (x22 :: list_byte_of_string "bad-json")
  = (sample_id, Some json_SyntaxError)
  /\ ID.UnmarshalJSON json.Unmarshal sample_id
       (x22 :: list_byte_of_string "invalid-ksuid" ++ [x22])
     = (sample_id, Some errStringSize)
  /\ ID.UnmarshalJSON json.Unmarshal sample_id
       (x22 :: list_byte_of_string "aWgEPTl1tmebfsQzFP4bxwgy80W" ++ [x22])
     = (sample_id, Some ksuid_errStrValue)
  /\ ID.UnmarshalJSON json.Unmarshal sample_id
       (x22 :: list_byte_of_string sample_ksuid_string ++ [x22])
     = (fst (Parse sample_ksuid_string), None).
Proof.
  split; [|split; [|split]].
  - refine (proj1 (UnmarshalJSON_outcomes json.Unmarshal sample_id _) EmptyString _ _).
    reflexivity.
  - refine (proj1 (proj2 (UnmarshalJSON_outcomes json.Unmarshal sample_id _))
              "invalid-ksuid"%string _ _ _ _); [reflexivity | cbn; lia ..].
  - refine (proj1 (proj2 (proj2 (UnmarshalJSON_outcomes json.Unmarshal sample_id _)))
              "aWgEPTl1tmebfsQzFP4bxwgy80W"%string zeroID _ _ _ _);
      [reflexivity | cbn; lia | vm_compute; reflexivity].
  - refine (proj2 (proj2 (proj2 (UnmarshalJSON_outcomes json.Unmarshal sample_id _)))
              sample_ksuid_string _ _ _ _);
      [reflexivity | cbn; lia | vm_compute; reflexivity].
Defined.

(** X16: both encodings are faithful on every identifier, minted or not:
    [Parse] inverts [ID.String] and [FromBytes] inverts [ID.Bytes]; hence
    two identifiers with the same string form, or with the same bytes, are
    the same identifier. *)
Theorem encodings_are_injective (i j : ID) :
  Parse (ID.String i) = (i, None)
  /\ FromBytes (ID.Bytes i) = (i, None)
  /\ (ID.String i = ID.String j -> i = j)
  /\ (ID.Bytes i = ID.Bytes j -> i = j).
Proof.
  split; [apply Parse_String|]. split; [apply FromBytes_Bytes|]. split; intros H.
  - pose proof (Parse_String i) as Hi. rewrite H, Parse_String in Hi. congruence.
  - pose proof (FromBytes_Bytes i) as Hi. rewrite H, FromBytes_Bytes in Hi. congruence.
Qed.

Lemma encodings_are_injective_witness :
  Parse (ID.String Nil) = (Nil, None)
  /\ FromBytes (ID.Bytes Nil) = (Nil, None)
  /\ fst (Parse "unk000000000000000000000000000") = Nil.
Proof.
  destruct (encodings_are_injective (fst (Parse "unk000000000000000000000000000")) Nil)
    as (_ & _ & Hs & _).
  destruct (encodings_are_injective Nil Nil) as (HP & HF & _).
  split; [exact HP | split; [exact HF|]].
  apply Hs. vm_compute. reflexivity.
Defined.

(** X17: an identifier returned by [New] carries the second of the clock
    at the call, as long as that second lies in the 2^32 seconds that start
    at the KSUID epoch: the Unix seconds of [ID.Time] and of the clock are
    equal, and the sub-second part of the clock is dropped.  [New] returns
    what [NewRandom] returns, which mints at the clock's time. *)
Theorem New_Time (n : Namespace) (w w' : World) (id : ID) :
  New n w = (Return id, w') ->
  1400000000 <= time.Unix (now w) < 1400000000 + 2 ^ 32 ->
  time.Unix (ID.Time id) = time.Unix (now w)
  /\ time.Nanosecond (ID.Time id) = 0
  /\ time.Unix (now w) - time.Unix (ID.Time id) <= 1
  /\ NewRandom n w = (id, None, w')
  /\ NewRandomWithTime n (now w) w = (id, None, w').
Proof.
  intros H Hr. apply New_inversion in H.
  assert (Hu : time.Unix (ID.Time id) = time.Unix (now w)
               /\ time.Nanosecond (ID.Time id) = 0).
  { pose proof H as H'. apply mint_inversion in H'. destruct H' as (_ & _ & Hk & _).
    assert (Hts : 0 <= ksuid.timeToCorrectedUTCTimestamp (now w) < 4294967296)
      by (apply Z.mod_pos_bound; reflexivity).
    unfold ID.Time, ksuid.Time. rewrite (Timestamp_of_slice _ _ _ Hts Hk).
    unfold ksuid.timeToCorrectedUTCTimestamp, uint32, ksuid.epochStamp, time.FromUnix.
    cbn [time.Unix time.Nanosecond time.sec time.nsec].
    rewrite Z.mod_small by lia. split; [cbn; lia | reflexivity]. }
  destruct Hu as [Hu Hn].
  split; [exact Hu|]. split; [exact Hn|]. split; [lia|]. split; exact H.
Qed.

Lemma New_Time_witness :
  time.Unix (ID.Time (fst (fst (NewRandom sample_ns sample_world))))
  = time.Unix (now sample_world)
  /\ time.Nanosecond (ID.Time (fst (fst (NewRandom sample_ns sample_world)))) = 0
  /\ time.Unix (now sample_world)
     - time.Unix (ID.Time (fst (fst (NewRandom sample_ns sample_world)))) <= 1
  /\ NewRandom sample_ns sample_world
     = (fst (fst (NewRandom sample_ns sample_world)), None,
        snd (NewRandom sample_ns sample_world))
  /\ NewRandomWithTime sample_ns (now sample_world) sample_world
     = (fst (fst (NewRandom sample_ns sample_world)), None,
        snd (NewRandom sample_ns sample_world)).
Proof.
  apply (New_Time sample_ns sample_world (snd (NewRandom sample_ns sample_world))
           (fst (fst (NewRandom sample_ns sample_world)))).
  - vm_compute. reflexivity.
  - unfold sample_world. cbn [now time.Unix time.sec]. lia.
Defined.
